(** * The JSGI connector of RingoJS (modules/ringo/jsgi/connector.js)

    A shallow embedding of the connector: handler resolution and middleware
    composition, request initialisation, the synchronous response commit and
    the asynchronous response handle with its write queue.

    Layout: the embedding first (modules [JS], [Resolver], [Request],
    [Commit], [Async], [Threads], and [Body], [Gate], [Chunks], [Dispatch],
    [Samples] for the further properties), then the theorems about it. *)

From Stdlib Require Import List String Ascii ZArith Bool Arith Lia.
From Stdlib Require Import Strings.Byte DecimalString Permutation.

Set Warnings "-register-all".
Import ListNotations.
Local Open Scope string_scope.
Local Open Scope list_scope.
Local Open Scope nat_scope.

(* ================================================================== *)
(** * Part I. The embedding                                            *)
(* ================================================================== *)

(** ** JavaScript values, as far as the connector looks at them *)
Module JS.

(** A JavaScript number.  Finite numbers are kept as integers: the
    connector only compares them with zero and hands them on. *)
Inductive number :=
| Finite (z : Z)
| NaN
| Infinity (negative : bool).

(** Function objects are opaque: a function is known by its name and the
    engine ([Resolver.Engine], [Commit.Host]) says what calling it does. *)
Inductive value :=
| Undefined
| Null
| Bool (b : bool)
| Num (n : number)
| Str (s : string)
| Binary (bytes : list byte)              (* instanceof Binary *)
| Array (items : list value)
| Function (name : string)
| Object (props : list (string * value)). (* properties, in for-in order *)

(** What the connector can throw.  The offending value that the source
    appends to the message is kept as a value. *)
Inductive error :=
| InvalidRequest (request : value)   (* "Invalid request argument: " + request *)
| NoValidApp (app : value)           (* 'No valid JSGI app: ' + app *)
| NoValidResponse (result : value)   (* 'No valid JSGI response: ' + result *)
| NoForEach (body : value)           (* "Response body doesn't implement forEach: " + body *)
| TypeError                          (* raised by the engine itself *)
| Raised (what : string).            (* thrown by code outside the connector *)

Definition message (e : error) : string :=
  match e with
  | InvalidRequest _ => "Invalid request argument: "
  | NoValidApp _ => "No valid JSGI app: "
  | NoValidResponse _ => "No valid JSGI response: "
  | NoForEach _ => "Response body doesn't implement forEach: "
  | TypeError => "TypeError"
  | Raised what => what
  end.

Inductive result (A : Type) :=
| Ok (a : A)
| Throw (e : error).
Arguments Ok {A} a.
Arguments Throw {A} e.

Definition bind {A B} (c : result A) (k : A -> result B) : result B :=
  match c with
  | Ok a => k a
  | Throw e => Throw e
  end.

(** ToBoolean. *)
Definition truthy (v : value) : bool :=
  match v with
  | Undefined | Null => false
  | Bool b => b
  | Num (Finite z) => negb (Z.eqb z 0)
  | Num NaN => false
  | Num (Infinity _) => true
  | Str s => negb (String.eqb s "")
  | Binary _ | Array _ | Function _ | Object _ => true
  end.

Definition falsy (v : value) : bool := negb (truthy v).

(** [a || b]. *)
Definition or_else (a b : value) : value := if truthy a then a else b.

Fixpoint lookup (key : string) (props : list (string * value)) : option value :=
  match props with
  | [] => None
  | (k, v) :: rest => if String.eqb k key then Some v else lookup key rest
  end.

(** [o.key] or [o[key]] for the objects of the model; a property that is
    not there reads as [undefined]. *)
Definition get (o : value) (key : string) : value :=
  match o with
  | Object props =>
      match lookup key props with
      | Some v => v
      | None => Undefined
      end
  | _ => Undefined
  end.

Definition is_function (v : value) : bool :=
  match v with
  | Function _ => true
  | _ => false
  end.

(** [s.split("\n")]: the pieces between the line feeds; an occurrence at
    either end leaves an empty piece there. *)
Definition newline : ascii := "010"%char.

Fixpoint split (s : string) : list string :=
  match s with
  | EmptyString => [EmptyString]
  | String c rest =>
      if Ascii.eqb c newline then EmptyString :: split rest
      else
        match split rest with
        | [] => [String c EmptyString]
        | piece :: pieces => String c piece :: pieces
        end
  end.

(** The inverse of split, and the number of line feeds in a string: split
    is characterised by them. *)
Fixpoint join (pieces : list string) : string :=
  match pieces with
  | [] => EmptyString
  | [piece] => piece
  | piece :: rest => (piece ++ String newline (join rest))%string
  end.

Fixpoint line_feeds (s : string) : nat :=
  match s with
  | EmptyString => 0
  | String c rest => (if Ascii.eqb c newline then 1 else 0) + line_feeds rest
  end.

End JS.
Import JS.

Declare Scope js_scope.
Notation "x <- c1 ;; c2" := (JS.bind c1 (fun x => c2))
  (at level 61, c1 at next level, right associativity) : js_scope.
Local Open Scope js_scope.

(** ** Handler resolution and middleware composition
       (resolve, middlewareWrapper, and the resolution part of handleRequest) *)
Module Resolver.

(** The script engine around the connector: the module registry
    ([require]), what calling a function object returns, the [env]
    property of a function object, and the RINGO_ENV process variable. *)
Class Engine := {
  require : string -> result value;
  call : string -> value -> result value;
  env_hook : string -> value;
  RINGO_ENV : value
}.

Section WithEngine.
Context {E : Engine}.

(** [f(arg)] for an arbitrary value [f]. *)
Definition invoke (f arg : value) : result value :=
  match f with
  | Function name => call name arg
  | _ => Throw TypeError
  end.

(** resolve(app); the inner loop is [app.reduceRight(middlewareWrapper)]
    with middlewareWrapper(inner, outer) = resolve(outer)(inner). *)
Fixpoint resolve (app : value) : result value :=
  match app with
  | Str id =>
      module <- require id ;;
      Ok (or_else (get module "middleware") (get module "handleRequest"))
  | Array items =>
      (fix reduce (l : list value) : result value :=
         match l with
         | [] => Throw TypeError
         | [last] => Ok last
         | outer :: rest =>
             inner <- reduce rest ;;
             f <- resolve outer ;;
             invoke f inner
         end) items
  | _ => Ok app
  end.

Definition middlewareWrapper (inner outer : value) : result value :=
  f <- resolve outer ;;
  invoke f inner.

(** Array.prototype.reduceRight with an initial value: from the last
    element to the first, stopping at the first exception. *)
Definition reduceRight (f : value -> value -> result value)
    (l : list value) (init : value) : result value :=
  fold_right (fun x acc => a <- acc ;; f a x) (Ok init) l.

(** Array.prototype.reduceRight without an initial value: the last
    element starts the accumulator; an empty array is a TypeError. *)
Fixpoint reduceRight1 (f : value -> value -> result value)
    (l : list value) : result value :=
  match l with
  | [] => Throw TypeError
  | [last] => Ok last
  | x :: rest => a <- reduceRight1 f rest ;; f a x
  end.

(** Line 34: middleware.reduceRight(middlewareWrapper, resolve(app)). *)
Definition compose (middleware : list value) (app : value) : result value :=
  init <- resolve app ;;
  reduceRight middlewareWrapper middleware init.

(** [app.env]: a property of a function object or of a plain object. *)
Definition env_of (app : value) : value :=
  match app with
  | Function name => env_hook name
  | _ => get app "env"
  end.

(** How handleRequest is told which function to run. *)
Inductive functionRef :=
| ByFunction (name : string)   (* typeof functionObj === 'function' *)
| ByName (export : string).

(** Lines 26-43 of handleRequest: the function the request is handed to. *)
Definition handleRequest_app (moduleId : string) (functionObj : functionRef)
    : result value :=
  app <- match functionObj with
         | ByFunction name => Ok (Function name)
         | ByName export =>
             module <- require moduleId ;;
             match or_else (get module "middleware") (Array []) with
             | Array middleware => compose middleware (get module export)
             | _ => init <- resolve (get module export) ;; Throw TypeError
             end
         end ;;
  app <- (if truthy app && truthy RINGO_ENV && is_function (env_of app)
          then invoke (env_of app) RINGO_ENV
          else Ok app) ;;
  if is_function app then Ok app else Throw (NoValidApp app).

End WithEngine.

(** An engine for examples: calling [m] on a function named [x] gives the
    function named [m(x)]; the registry is empty. *)
Definition name_of (v : value) : string :=
  match v with
  | Function x => x
  | _ => "?"
  end.

Definition symbolic : Engine := {|
  require := fun _ => Throw (Raised "module not found");
  call := fun m arg => Ok (Function (m ++ "(" ++ name_of arg ++ ")")%string);
  env_hook := fun _ => Undefined;
  RINGO_ENV := Undefined
|}.

End Resolver.

(** ** Request initialisation (initRequest) *)
Module Request.

(** The own property [input] of a request object. *)
Inductive inputProperty :=
| Absent                      (* hasOwnProperty('input') is false *)
| Plain (v : value)           (* an own property that initRequest did not define *)
| Getter (input : option nat).
    (* the getter of initRequest; [input] is its closure variable, a Stream
       object named by its number, or still undefined *)

Record request := {
  input : inputProperty;
  jsgi_errors : option string;   (* request.jsgi.errors *)
  streams : nat                  (* Stream objects constructed so far *)
}.

Definition hasOwnProperty_input (r : request) : bool :=
  match input r with
  | Absent => false
  | _ => true
  end.

Definition initRequest (r : request) : request :=
  if hasOwnProperty_input r then r
  else {| input := Getter None;
          jsgi_errors := Some "system.stderr";
          streams := streams r |}.

(** What reading [request.input] gives. *)
Inductive read :=
| Stream (id : nat)
| Other (v : value).

(** Reading [request.input].  [constructs] says whether
    [new Stream(request.env.servletRequest.getInputStream())] succeeds
    should the getter come to run it; when it throws, the closure variable
    stays undefined. *)
Definition get_input (constructs : bool) (r : request) : result read * request :=
  match input r with
  | Absent => (Ok (Other Undefined), r)
  | Plain v => (Ok (Other v), r)
  | Getter (Some s) => (Ok (Stream s), r)
  | Getter None =>
      if constructs
      then (Ok (Stream (streams r)),
            {| input := Getter (Some (streams r));
               jsgi_errors := jsgi_errors r;
               streams := S (streams r) |})
      else (Throw (Raised "getInputStream"), r)
  end.

(** What a caller can do with a request descriptor. *)
Inductive op :=
| Init                       (* initRequest(request) *)
| Read (constructs : bool).  (* request.input *)

(** The results of the reads of a sequence of operations, and the
    request after them. *)
Fixpoint run (ops : list op) (r : request) : list (result read) * request :=
  match ops with
  | [] => ([], r)
  | Init :: rest => run rest (initRequest r)
  | Read c :: rest =>
      let (got, r1) := get_input c r in
      let (gots, r2) := run rest r1 in
      (got :: gots, r2)
  end.

Definition fresh : request :=
  {| input := Absent; jsgi_errors := None; streams := 0 |}.

(** The stream every read of [request.input] will give from [r] on: the
    memoized one, or else the next one to be constructed. *)
Definition the_stream (r : request) : nat :=
  match input r with
  | Getter (Some s) => s
  | _ => streams r
  end.

(** How many streams may still be constructed from [r] on. *)
Definition to_build (r : request) : nat :=
  match input r with
  | Absent | Getter None => 1
  | _ => 0
  end.

End Request.

(** ** What the connector imports: ringo/utils/http and binary *)
Module Host.

Class Host := {
  (* Headers(headers).contains(name) *)
  Headers_contains : value -> string -> result bool;
  (* headers.get(name), on headers that went through Headers() *)
  Headers_get : value -> string -> result value;
  getMimeParameter : value -> string -> result value;
  (* part.toByteString(charset), for a part that is no Binary *)
  toByteString : value -> value -> result (list byte);
  (* String(data).toByteArray(encoding) *)
  toByteArray : value -> value -> result (list byte);
  (* a property found on the prototype of a value that is neither a plain
     object nor an array *)
  prototype_member : value -> string -> value;
  (* the values a function, called as a method of [this] with one callback,
     hands to the callback, in order *)
  feeds : string -> value -> list value
}.

End Host.
Import Host.

(** ** The synchronous commit
       (commitResponse, writeResponse, writeHeaders, writeBody) *)
Module Commit.

(** A call on the servlet response or on its output stream. *)
Inductive call :=
| SetStatus (status : value)
| AddHeader (name : string) (v : value)
| GetOutputStream
| Write (part : list byte).

(** The servlet exchange as commitResponse sees it: the two questions it
    asks, and the calls made on the response so far. *)
Record exchange := {
  isAsyncStarted : bool;
  isCommitted : bool;
  calls : list call
}.

Definition record (c : call) (x : exchange) : exchange :=
  {| isAsyncStarted := isAsyncStarted x;
     isCommitted := isCommitted x;
     calls := calls x ++ [c] |}.

(** Code that works on the exchange and may throw; what was done before
    an exception stays done. *)
Definition Tx (A : Type) : Type := exchange -> result A * exchange.

Definition ret {A} (a : A) : Tx A := fun x => (Ok a, x).
Definition throw {A} (e : error) : Tx A := fun x => (Throw e, x).
Definition lift {A} (c : result A) : Tx A := fun x => (c, x).
Definition emit (c : call) : Tx unit := fun x => (Ok tt, record c x).

Definition then_ {A B} (c : Tx A) (k : A -> Tx B) : Tx B :=
  fun x =>
    match c x with
    | (Ok a, x1) => k a x1
    | (Throw e, x1) => (Throw e, x1)
    end.

Declare Scope tx_scope.
Delimit Scope tx_scope with tx.
Notation "x <- c1 ;; c2" := (then_ c1 (fun x => c2))
  (at level 61, c1 at next level, right associativity) : tx_scope.
Notation "c1 ;; c2" := (then_ c1 (fun _ => c2))
  (at level 61, right associativity) : tx_scope.
Local Open Scope tx_scope.

Fixpoint for_each {A} (f : A -> Tx unit) (l : list A) : Tx unit :=
  match l with
  | [] => ret tt
  | a :: rest => f a ;; for_each f rest
  end.

Definition index_key (i : nat) : string :=
  NilZero.string_of_uint (Nat.to_uint i).

Fixpoint chars (s : string) : list value :=
  match s with
  | EmptyString => []
  | String c rest => Str (String c EmptyString) :: chars rest
  end.

Definition indexed (items : list value) : list (string * value) :=
  combine (map index_key (seq 0 (List.length items))) items.

(** The (key, headers[key]) pairs that [for (var key in headers)] visits. *)
Definition for_in (headers : value) : list (string * value) :=
  match headers with
  | Object props => props
  | Array items => indexed items
  | Str s => indexed (chars s)
  | _ => []
  end.

Definition sentinel : string := "X-JSGI-Skip-Response".

(** The exchange after some more calls. *)
Definition extend (x : exchange) (cs : list call) : exchange :=
  {| isAsyncStarted := isAsyncStarted x;
     isCommitted := isCommitted x;
     calls := calls x ++ cs |}.

(** The header lines one entry of the headers object contributes. *)
Definition header_lines (entry : string * value) : list call :=
  match snd entry with
  | Str s => map (fun piece => AddHeader (fst entry) (Str piece)) (split s)
  | Array items => map (AddHeader (fst entry)) items
  | _ => []
  end.

(** The calls that touch the output stream. *)
Definition is_output (c : call) : bool :=
  match c with
  | GetOutputStream | Write _ => true
  | _ => false
  end.

Section WithHost.
Context {H : Host}.

(** The body of the loop of writeHeaders, for one key. *)
Definition writeHeader (entry : string * value) : Tx unit :=
  let (key, values) := entry in
  match values with
  | Str s => for_each (fun v => emit (AddHeader key (Str v))) (split s)
  | Array items => for_each (fun v => emit (AddHeader key v)) items
  | _ => ret tt
  end.

Definition writeHeaders (headers : value) : Tx unit :=
  for_each writeHeader (for_in headers).

(** [v.name], for the two properties writeBody asks a body for. *)
Definition member (v : value) (name : string) : value :=
  match v with
  | Undefined | Null => Undefined
  | Object _ => get v name
  | Array _ =>
      if String.eqb name "forEach" then Function "Array.prototype.forEach"
      else Undefined
  | _ => prototype_member v name
  end.

(** The parts [this.f(callback)] hands to the callback. *)
Definition iterate (f : string) (this : value) : list value :=
  match this with
  | Array items => items
  | _ => feeds f this
  end.

(** The closure [writer] of writeBody. *)
Definition writer (charset : value) (part : value) : Tx unit :=
  bytes <- lift (match part with
                 | Binary b => Ok b
                 | _ => toByteString part charset
                 end) ;;
  emit (Write bytes).

Definition writeBody (body : value) (charset : value) : Tx unit :=
  match truthy body, member body "forEach" with
  | true, Function forEach =>
      emit GetOutputStream ;;
      for_each (writer charset) (iterate forEach body) ;;
      match member body "close" with
      | Function close => for_each (writer charset) (iterate close body)
      | _ => ret tt
      end
  | _, _ => throw (NoForEach body)
  end.

Definition writeResponse (status headers body : value) : Tx unit :=
  emit (SetStatus status) ;;
  writeHeaders headers ;;
  contentType <- lift (Headers_get headers "Content-Type") ;;
  charset <- lift (getMimeParameter contentType "charset") ;;
  writeBody body charset.

Definition commitResponse (result : value) : Tx unit :=
  fun x =>
    if isAsyncStarted x then (Ok tt, x)
    else
      let status := get result "status" in
      let headers := get result "headers" in
      let body := get result "body" in
      if falsy status || falsy headers || falsy body
      then (Throw (NoValidResponse result), x)
      else if isCommitted x then (Ok tt, x)
      else
        (skip <- lift (Headers_contains headers sentinel) ;;
         if skip : bool then ret tt
         else writeResponse status headers body) x.

(** Whether the body passes the test of writeBody. *)
Definition has_forEach (body : value) : bool :=
  truthy body && is_function (member body "forEach").

End WithHost.

(** A host for examples: header names are looked up as they are written,
    there is no charset, text is encoded byte by byte, and only plain
    objects and arrays have properties. *)
Definition plain : Host := {|
  Headers_contains := fun headers name =>
    Ok (match headers with
        | Object props =>
            match lookup name props with Some _ => true | None => false end
        | _ => false
        end);
  Headers_get := fun headers name => Ok (get headers name);
  getMimeParameter := fun _ _ => Ok Undefined;
  toByteString := fun part _ =>
    match part with
    | Str s => Ok (list_byte_of_string s)
    | _ => Throw TypeError
    end;
  toByteArray := fun data _ =>
    match data with
    | Str s => Ok (list_byte_of_string s)
    | _ => Throw TypeError
    end;
  prototype_member := fun _ _ => Undefined;
  feeds := fun _ _ => []
|}.

Definition idle : exchange :=
  {| isAsyncStarted := false; isCommitted := false; calls := [] |}.

(** Descriptors for examples. *)
Definition ok_status : string * value := ("status", Num (Finite 200)).

(** No body at all. *)
Definition no_body : value :=
  Object [ok_status; ("headers", Object [])].

(** All three fields, status 0. *)
Definition zero_status : value :=
  Object [("status", Num (Finite 0)); ("headers", Object []);
          ("body", Array [Str "hello"])].

(** All three fields, the body the number 0. *)
Definition zero_body : value :=
  Object [ok_status; ("headers", Object []); ("body", Num (Finite 0))].

(** All three fields, the body the number 5. *)
Definition number_body : value :=
  Object [ok_status;
          ("headers", Object [("Content-Type", Str "text/plain")]);
          ("body", Num (Finite 5))].

(** A complete descriptor that carries the skip header. *)
Definition skipped : value :=
  Object [ok_status;
          ("headers", Object [("X-JSGI-Skip-Response", Str "true")]);
          ("body", Array [Str "hello"])].

(** A complete descriptor. *)
Definition hello : value :=
  Object [ok_status;
          ("headers", Object [("Set-Cookie", Str "a=1
b=2"); ("X-Count", Array [Num (Finite 5)]); ("get", Function "get")]);
          ("body", Array [Str "hi"; Binary ["!"%byte]])].

(** An exchange the handler has switched to asynchronous mode. *)
Definition started : exchange :=
  {| isAsyncStarted := true; isCommitted := false;
     calls := [] |}.

End Commit.

(** ** The asynchronous response
       (AsyncResponse, WriteListenerImpl, onWritePossible), one call at a time *)
Module Async.

Definition chunk : Type := list byte.

(** A call on the servlet output stream. *)
Inductive out_call :=
| OutWrite (data : chunk)
| OutFlush
| SetWriteListener.

(** The output stream.  What [isReady()] answers is the transport's
    business: [answers n] is the answer to the n-th call. *)
Record channel := {
  answers : nat -> bool;
  polls : nat;
  sent : list out_call
}.

Definition isReady (ch : channel) : bool * channel :=
  (answers ch (polls ch),
   {| answers := answers ch; polls := S (polls ch); sent := sent ch |}).

Definition out (c : out_call) (ch : channel) : channel :=
  {| answers := answers ch; polls := polls ch; sent := sent ch ++ [c] |}.

(** A call on the servlet request, the async context or the response. *)
Inductive ctx_call :=
| StartAsync
| SetTimeout (ms : number)
| AddListener
| GetOutputStream
| Complete.

(** The [timeout] argument: left out (undefined), null, or a number. *)
Inductive timeoutArg :=
| Omitted
| IsNull
| Millis (n : number).

Definition isFinite (n : number) : bool :=
  match n with
  | Finite _ => true
  | _ => false
  end.

(** [timeout != null && isFinite(timeout)]. *)
Definition registers (timeout : timeoutArg) : option number :=
  match timeout with
  | Omitted | IsNull => None
  | Millis n => if isFinite n then Some n else None
  end.

Record WriteListenerImpl := {
  queue : list chunk;
  autoFlush : bool
}.

(** The object AsyncResponse returns, with the variables it closes over. *)
Record handle := {
  autoFlushArg : value;
  writeListener : option WriteListenerImpl   (* None is null *)
}.

(** [v === true]. *)
Definition is_true (v : value) : bool :=
  match v with
  | Bool true => true
  | _ => false
  end.

(** [o.method()] can be called when [o.method] is a function; on anything
    else, and on a receiver that is undefined, the call is a TypeError.  The
    servlet objects are objects whose methods are functions. *)
Definition has_method (o : value) (method : string) : bool :=
  is_function (get o method).

(** AsyncResponse(request, timeout, autoFlush): the handle, or the
    exception, and the calls made on the transport up to there.  Lines
    152-153 take servletRequest and servletResponse out of request.env and
    call servletRequest.startAsync(); line 173 calls
    servletResponse.getOutputStream(). *)
Definition AsyncResponse (request : value) (timeout : timeoutArg)
    (autoFlush : value) : result handle * list ctx_call :=
  if falsy request || falsy (get request "env")
  then (Throw (InvalidRequest request), [])
  else
    let servletRequest := get (get request "env") "servletRequest" in
    let servletResponse := get (get request "env") "servletResponse" in
    if negb (has_method servletRequest "startAsync")
    then (Throw TypeError, [])
    else
      let context :=
        [StartAsync]
          ++ match registers timeout with
             | Some ms => [SetTimeout ms]
             | None => []
             end
          ++ [AddListener] in
      if negb (has_method servletResponse "getOutputStream")
      then (Throw TypeError, context)
      else
        (Ok {| autoFlushArg := autoFlush; writeListener := None |},
         context ++ [GetOutputStream]).

(** A request as the servlet hands it over: its environment holds the
    servlet request and the servlet response. *)
Definition servlet_request : value :=
  Object
    [("env",
      Object
        [("servletRequest", Object [("startAsync", Function "startAsync")]);
         ("servletResponse",
          Object [("getOutputStream", Function "getOutputStream")])])].

(** The loop of onWritePossible.  A queue that is not empty hands out its
    head, a byte array, so the [if (!data) break] of the source is not
    taken when calls do not overlap ([Threads] has the other case). *)
Fixpoint drain (q : list chunk) (ch : channel) : list chunk * channel :=
  match q with
  | [] => ([], ch)
  | data :: rest =>
      let (ready, ch1) := isReady ch in
      if ready then drain rest (out (OutWrite data) ch1)
      else (q, ch1)
  end.

Definition onWritePossible (l : WriteListenerImpl) (ch : channel)
    : WriteListenerImpl * channel :=
  let (q, ch1) := drain (queue l) ch in
  let l1 := {| queue := q; autoFlush := autoFlush l |} in
  if autoFlush l then
    let (ready, ch2) := isReady ch1 in
    (l1, if ready then out OutFlush ch2 else ch2)
  else (l1, ch1).

(** Lines 183-191 of write, once [data] is a byte array. *)
Definition enqueue (data : chunk) (h : handle) (ch : channel)
    : handle * channel :=
  match writeListener h with
  | None =>
      ({| autoFlushArg := autoFlushArg h;
          writeListener :=
            Some {| queue := [data]; autoFlush := is_true (autoFlushArg h) |} |},
       out SetWriteListener ch)
  | Some l =>
      let (l1, ch1) :=
        onWritePossible {| queue := queue l ++ [data]; autoFlush := autoFlush l |} ch in
      ({| autoFlushArg := autoFlushArg h; writeListener := Some l1 |}, ch1)
  end.

Section WithHost.
Context {H : Host}.

Definition write (data encoding : value) (h : handle) (ch : channel)
    : result (handle * channel) :=
  bytes <- match data with
           | Binary b => Ok b
           | _ => toByteArray data encoding
           end ;;
  Ok (enqueue bytes h ch).

(** start(status, headers), on the servlet response. *)
Definition start (status headers : value) : Commit.Tx unit :=
  Commit.then_ (Commit.emit (Commit.SetStatus status))
    (fun _ => Commit.writeHeaders (or_else headers (Object []))).

End WithHost.

Definition flush (ch : channel) : channel :=
  let (ready, ch1) := isReady ch in
  if ready then out OutFlush ch1 else ch1.

Definition close (ctx : list ctx_call) : list ctx_call := ctx ++ [Complete].

(** The servlet container calls the registered listener. *)
Definition callback (h : handle) (ch : channel) : handle * channel :=
  match writeListener h with
  | None => (h, ch)
  | Some l =>
      let (l1, ch1) := onWritePossible l ch in
      ({| autoFlushArg := autoFlushArg h; writeListener := Some l1 |}, ch1)
  end.

(** What happens to a handle, one call after the other. *)
Inductive op :=
| Enqueue (data : chunk)   (* write(data), data already bytes *)
| Ready                    (* the container calls onWritePossible *)
| Flush.

Definition step (o : op) (s : handle * channel) : handle * channel :=
  match o with
  | Enqueue data => enqueue data (fst s) (snd s)
  | Ready => callback (fst s) (snd s)
  | Flush => (fst s, flush (snd s))
  end.

Definition run (ops : list op) (s : handle * channel) : handle * channel :=
  fold_left (fun s o => step o s) ops s.

(** The chunks of the write calls, in call order. *)
Fixpoint enqueued (ops : list op) : list chunk :=
  match ops with
  | [] => []
  | Enqueue data :: rest => data :: enqueued rest
  | _ :: rest => enqueued rest
  end.

(** The chunks written to the output stream, in write order. *)
Fixpoint written (calls : list out_call) : list chunk :=
  match calls with
  | [] => []
  | OutWrite data :: rest => data :: written rest
  | _ :: rest => written rest
  end.

Definition pending (h : handle) : list chunk :=
  match writeListener h with
  | None => []
  | Some l => queue l
  end.

(** How many of the next [n] answers of the channel, from call [from] on,
    are yes before the first no. *)
Fixpoint ready_run (a : nat -> bool) (from n : nat) : nat :=
  match n with
  | 0 => 0
  | S n' => if a from then S (ready_run a (S from) n') else 0
  end.

(** The drain routine in the words of the specification: [k] chunks are
    popped and written, each after the channel said it was ready; the
    routine stops at the first no, with the other chunks still queued;
    with autoFlush there is one more question, and a flush on a yes. *)
Definition drains (l : WriteListenerImpl) (ch : channel)
    (after : WriteListenerImpl * channel) : Prop :=
  exists k : nat,
    k <= List.length (queue l)
    /\ (forall i, i < k -> answers ch (polls ch + i) = true)
    /\ (k < List.length (queue l) -> answers ch (polls ch + k) = false)
    /\ let asked := polls ch + k + (if k <? List.length (queue l) then 1 else 0) in
       after =
         ({| queue := skipn k (queue l); autoFlush := autoFlush l |},
          {| answers := answers ch;
             polls := if autoFlush l then S asked else asked;
             sent := sent ch ++ map OutWrite (firstn k (queue l))
                       ++ (if autoFlush l && answers ch asked
                           then [OutFlush] else []) |}).

Definition quiet (a : nat -> bool) : channel :=
  {| answers := a; polls := 0; sent := [] |}.

End Async.

(** ** The asynchronous response under overlapping calls

    Threads that share one handle, each inside write(data) or inside
    onWritePossible, interleaved at the calls they make on shared objects:
    the closure variable [writeListener], the queues
    (java.util.concurrent.ConcurrentLinkedQueue: add, isEmpty and poll are
    atomic) and the servlet output stream. *)
Module Threads.

Import Async.

(** Where a thread stands. *)
Inductive pc :=
| Test (data : chunk)      (* 183  if (writeListener === null) *)
| New (data : chunk)       (* 184  writeListener = new WriteListenerImpl(...) *)
| AddFirst (data : chunk)  (* 186  writeListener.queue.add(data) *)
| Register                 (* 187  out.setWriteListener(writeListener) *)
| Add (data : chunk)       (* 189  writeListener.queue.add(data) *)
| Call                     (* 190  writeListener.onWritePossible() *)
| IsEmpty (this : nat)     (* 256  !this.queue.isEmpty() *)
| IsReady (this : nat)     (* 256  && outStream.isReady() *)
| Poll (this : nat)        (* 257  data = this.queue.poll(); if (!data) break *)
| WriteOut (this : nat) (data : chunk)   (* 261  outStream.write(data) *)
| FlushTest (this : nat)   (* 263  this.autoFlush === true && outStream.isReady() *)
| FlushOut (this : nat)    (* 264  outStream.flush() *)
| Done.

(** What the threads share.  Listener objects are named by their position
    in [queues]; [added] keeps the order of the queue.add calls. *)
Record shared := {
  writeListener : option nat;
  queues : list (list chunk);
  autoFlush : bool;
  registered : list nat;   (* the listeners handed to setWriteListener *)
  sent : list out_call;
  added : list chunk
}.

Definition queue_of (this : nat) (s : shared) : list chunk :=
  nth this (queues s) [].

Fixpoint set_nth {A} (n : nat) (a : A) (l : list A) : list A :=
  match n, l with
  | _, [] => []
  | 0, _ :: rest => a :: rest
  | S n', x :: rest => x :: set_nth n' a rest
  end.

Definition set_queue (this : nat) (q : list chunk) (s : shared) : shared :=
  {| writeListener := writeListener s;
     queues := set_nth this q (queues s);
     autoFlush := autoFlush s;
     registered := registered s;
     sent := sent s;
     added := added s |}.

Definition send (c : out_call) (s : shared) : shared :=
  {| writeListener := writeListener s;
     queues := queues s;
     autoFlush := autoFlush s;
     registered := registered s;
     sent := sent s ++ [c];
     added := added s |}.

(** [out.setWriteListener(writeListener)]. *)
Definition register (s : shared) : shared :=
  {| writeListener := writeListener s;
     queues := queues s;
     autoFlush := autoFlush s;
     registered :=
       registered s
         ++ match writeListener s with Some this => [this] | None => [] end;
     sent := sent s ++ [SetWriteListener];
     added := added s |}.

(** [writeListener.queue.add(data)]. *)
Definition add (data : chunk) (s : shared) : shared :=
  match writeListener s with
  | None => s
  | Some this =>
      {| writeListener := writeListener s;
         queues := set_nth this (queue_of this s ++ [data]) (queues s);
         autoFlush := autoFlush s;
         registered := registered s;
         sent := sent s;
         added := added s ++ [data] |}
  end.

(** One step of one thread; [ready] is what isReady() answers if the
    step asks. *)
Definition step (p : pc) (ready : bool) (s : shared) : pc * shared :=
  match p with
  | Test data =>
      (match writeListener s with None => New data | Some _ => Add data end, s)
  | New data =>
      (AddFirst data,
       {| writeListener := Some (List.length (queues s));
          queues := queues s ++ [[]];
          autoFlush := autoFlush s;
          registered := registered s;
          sent := sent s;
          added := added s |})
  | AddFirst data => (Register, add data s)
  | Register => (Done, register s)
  | Add data => (Call, add data s)
  | Call =>
      (match writeListener s with Some this => IsEmpty this | None => Done end, s)
  | IsEmpty this =>
      (match queue_of this s with [] => FlushTest this | _ => IsReady this end, s)
  | IsReady this => (if ready then Poll this else FlushTest this, s)
  | Poll this =>
      match queue_of this s with
      | [] => (FlushTest this, s)
      | data :: rest => (WriteOut this data, set_queue this rest s)
      end
  | WriteOut this data => (IsEmpty this, send (OutWrite data) s)
  | FlushTest this =>
      (if autoFlush s then if ready then FlushOut this else Done else Done, s)
  | FlushOut this => (Done, send OutFlush s)
  | Done => (Done, s)
  end.

Definition config : Type := list pc * shared.

(** The scheduler lets thread [t] take one step. *)
Definition fire (c : config) (choice : nat * bool) : config :=
  let (t, ready) := choice in
  match nth_error (fst c) t with
  | None => c
  | Some p =>
      let (p1, s1) := step p ready (snd c) in
      (set_nth t p1 (fst c), s1)
  end.

Definition run (schedule : list (nat * bool)) (c : config) : config :=
  fold_left fire schedule c.

Definition is_done (p : pc) : bool :=
  match p with
  | Done => true
  | _ => false
  end.

Definition finished (c : config) : bool :=
  forallb is_done (fst c)
  && forallb (fun q => match q with [] => true | _ => false end) (queues (snd c)).

(** A new handle (no listener yet) and one write(data) call per thread. *)
Definition writers (auto : bool) (data : list chunk) : config :=
  (map Test data,
   {| writeListener := None; queues := []; autoFlush := auto;
      registered := []; sent := []; added := [] |}).

(** [n] steps of thread [t], the channel ready whenever asked. *)
Definition steps (t n : nat) : list (nat * bool) := repeat (t, true) n.

Definition c1 : chunk := ["a"%byte].
Definition c2 : chunk := ["b"%byte].
Definition c3 : chunk := ["c"%byte].

(** The first write runs alone; the second and third both enqueue, both
    poll, and the one that polled later writes first. *)
Definition overlapping : list (nat * bool) :=
  steps 0 4            (* write(c1): new listener, add, register *)
  ++ steps 1 2         (* write(c2): queue.add(c2) *)
  ++ steps 2 2         (* write(c3): queue.add(c3) *)
  ++ steps 1 4         (* thread 1 drains: polls c1 *)
  ++ steps 2 4         (* thread 2 drains: polls c2 *)
  ++ steps 2 1         (* thread 2 writes c2 *)
  ++ steps 1 1         (* thread 1 writes c1 *)
  ++ steps 1 6         (* thread 1 goes round: polls and writes c3, leaves *)
  ++ steps 2 2.        (* thread 2 finds the queue empty, leaves *)

(** The same three calls, one after the other. *)
Definition serial : list (nat * bool) :=
  steps 0 4 ++ steps 1 13 ++ steps 2 9.

(** Two first calls at once: both see null. *)
Definition racing_first : list (nat * bool) :=
  steps 0 1 ++ steps 1 1     (* both test writeListener === null *)
  ++ steps 0 2               (* thread 0: new listener 0, add c1 to it *)
  ++ steps 1 2               (* thread 1: new listener 1, add c2 to it *)
  ++ steps 0 1 ++ steps 1 1. (* both register the listener in the variable *)

End Threads.

(** ** The body parts writeBody hands to the output stream *)
Module Body.

Import Commit.

Section WithHost.
Context {H : Host}.

(** What [writer] writes for one part: a Binary as it is, anything else
    through its toByteString(charset). *)
Definition bytes_of (charset part : value) : result (list byte) :=
  match part with
  | Binary b => Ok b
  | _ => toByteString part charset
  end.

(** The parts that get written, in order, up to the first part whose
    conversion throws, and that exception if there is one. *)
Fixpoint written_parts (charset : value) (parts : list value)
    : list (list byte) * option error :=
  match parts with
  | [] => ([], None)
  | part :: rest =>
      match bytes_of charset part with
      | Throw e => ([], Some e)
      | Ok b =>
          let (bs, e) := written_parts charset rest in
          (b :: bs, e)
      end
  end.

(** The parts [body.close(writer)] hands over, when the body has a close
    function. *)
Definition closing (body : value) : list value :=
  match member body "close" with
  | Function close => iterate close body
  | _ => []
  end.

End WithHost.

Definition outcome (e : option error) : result unit :=
  match e with
  | None => Ok tt
  | Some e => Throw e
  end.

End Body.

(** ** Counting what the handle does on the channel *)
Module Gate.

Import Async.

(** The writes and flushes among the calls on the output stream. *)
Fixpoint outputs (calls : list out_call) : nat :=
  match calls with
  | [] => 0
  | SetWriteListener :: rest => outputs rest
  | _ :: rest => S (outputs rest)
  end.

Fixpoint flushes (calls : list out_call) : nat :=
  match calls with
  | [] => 0
  | OutFlush :: rest => S (flushes rest)
  | _ :: rest => flushes rest
  end.

(** How many of the first [n] answers of isReady() were yes. *)
Fixpoint yeses (a : nat -> bool) (n : nat) : nat :=
  match n with
  | 0 => 0
  | S n' => yeses a n' + (if a n' then 1 else 0)
  end.

(** A handle as AsyncResponse returns it. *)
Definition created (autoFlush : value) : handle :=
  {| autoFlushArg := autoFlush; writeListener := None |}.

Definition is_flush (o : op) : bool :=
  match o with
  | Flush => true
  | _ => false
  end.

(** A handle whose autoFlush argument is not the boolean true, with a
    listener, if it has one, made from that argument. *)
Definition plain_handle (h : handle) : Prop :=
  is_true (autoFlushArg h) = false
  /\ forall l, writeListener h = Some l -> Async.autoFlush l = false.

(** The channel has been written to or flushed once for each yes it gave. *)
Definition gated (ch : channel) : Prop :=
  outputs (sent ch) = yeses (answers ch) (polls ch).

End Gate.

(** ** Where the chunks are while threads overlap *)
Module Chunks.

Import Async Threads.

(** The chunk a thread has in hand: the argument of a write call that has
    not reached the queue yet, or a chunk polled and not yet written. *)
Definition holding (p : pc) : list chunk :=
  match p with
  | Test data | New data | AddFirst data | Add data => [data]
  | WriteOut _ data => [data]
  | _ => []
  end.

(** Every chunk of the system: written, queued in some listener, or in the
    hand of a thread. *)
Definition everywhere (c : config) : list chunk :=
  written (sent (snd c)) ++ List.concat (queues (snd c))
    ++ flat_map holding (fst c).

Definition chunk_eq_dec : forall d d' : chunk, {d = d'} + {d <> d'} :=
  list_eq_dec Byte.byte_eq_dec.

(** How often the chunk [d] occurs in a list of chunks. *)
Definition cnt (d : chunk) (l : list chunk) : nat := count_occ chunk_eq_dec l d.

(** A thread between making sure there is a listener and using it. *)
Definition uses_listener (p : pc) : bool :=
  match p with
  | AddFirst _ | Add _ | Register | Call => true
  | _ => false
  end.

(** What every reachable configuration satisfies: the variable
    [writeListener] names a listener that exists, and is set whenever a
    thread is about to use it. *)
Definition sound (c : config) : Prop :=
  (forall this, writeListener (snd c) = Some this ->
                this < List.length (queues (snd c)))
  /\ (forall p, In p (fst c) -> uses_listener p = true ->
                writeListener (snd c) <> None).

End Chunks.

(** ** The whole of handleRequest *)
Module Dispatch.

Import Resolver Commit.

(** The request object as handleRequest changes it: the [input] and
    [jsgi.errors] properties of initRequest, and [env.app]. *)
Record jsgi := {
  descriptor : Request.request;
  env_app : option string
}.

(** What calling the JSGI application does: [serve name request exchange]
    is the value the function [name] returns (or what it throws), with the
    request and the servlet exchange as it leaves them. *)
Class Application := {
  serve : string -> jsgi -> exchange -> result value * (jsgi * exchange)
}.

Section WithWorld.
Context {E : Engine} {H : Host} {A : Application}.

(** Line 33, [request.env.app = moduleId]: reached when the function is
    given by name and require(moduleId) returned. *)
Definition set_app (moduleId : string) (functionObj : functionRef)
    (r : jsgi) : jsgi :=
  match functionObj with
  | ByFunction _ => r
  | ByName _ =>
      match require moduleId with
      | Ok _ => {| descriptor := descriptor r; env_app := Some moduleId |}
      | Throw _ => r
      end
  end.

Definition handleRequest (moduleId : string) (functionObj : functionRef)
    (r : jsgi) (x : exchange) : result unit * (jsgi * exchange) :=
  let r1 := {| descriptor := Request.initRequest (descriptor r);
               env_app := env_app r |} in
  let r2 := set_app moduleId functionObj r1 in
  match handleRequest_app moduleId functionObj with
  | Throw e => (Throw e, (r2, x))
  | Ok (Function app) =>
      match serve app r2 x with
      | (Throw e, after) => (Throw e, after)
      | (Ok result, (r3, x3)) =>
          if falsy result then (Throw (NoValidResponse result), (r3, x3))
          else
            let (done, x4) := commitResponse result x3 in
            (done, (r3, x4))
      end
  | Ok app => (Throw (NoValidApp app), (r2, x))
  end.

(** The request as the application gets it: initialised, and with
    [env.app] set when the function was given by name. *)
Definition prepared (moduleId : string) (functionObj : functionRef)
    (r : jsgi) : jsgi :=
  set_app moduleId functionObj
    {| descriptor := Request.initRequest (descriptor r); env_app := env_app r |}.

End WithWorld.

(** An application for examples: "async" switches the exchange to
    asynchronous mode and returns its handle, an object without status;
    "silent" does the same and returns nothing; anything else returns the
    descriptor [hello]. *)
Definition sample : Application := {|
  serve := fun name r x =>
    if String.eqb name "async" then
      (Ok (Object [("write", Function "write")]),
       (r, {| isAsyncStarted := true; isCommitted := isCommitted x;
              calls := calls x |}))
    else if String.eqb name "silent" then
      (Ok Undefined,
       (r, {| isAsyncStarted := true; isCommitted := isCommitted x;
              calls := calls x |}))
    else (Ok hello, (r, x))
|}.

Definition incoming : jsgi :=
  {| descriptor := Request.fresh; env_app := None |}.

End Dispatch.

(** ** Engines and hosts for examples *)
Module Samples.

(** An engine with one module, "app", that exports a handler and a
    middleware list. *)
Definition one_module : Resolver.Engine := {|
  Resolver.require := fun id =>
    if String.eqb id "app"
    then Ok (Object [("handleRequest", Function "h");
                     ("middleware", Array [Function "m1"; Function "m2"])])
    else Throw (Raised "module not found");
  Resolver.call := fun m arg =>
    Ok (Function (m ++ "(" ++ Resolver.name_of arg ++ ")")%string);
  Resolver.env_hook := fun _ => Undefined;
  Resolver.RINGO_ENV := Undefined
|}.

(** A host like [Commit.plain] for bodies that are objects: the function
    "each" hands over the elements of the [parts] property of the body and
    the function "close" one last part. *)
Definition feeding : Host := {|
  Headers_contains := @Headers_contains Commit.plain;
  Headers_get := @Headers_get Commit.plain;
  getMimeParameter := @getMimeParameter Commit.plain;
  toByteString := @toByteString Commit.plain;
  toByteArray := @toByteArray Commit.plain;
  prototype_member := @prototype_member Commit.plain;
  feeds := fun name this =>
    if String.eqb name "each" then
      match get this "parts" with
      | Array parts => parts
      | _ => []
      end
    else if String.eqb name "close" then [Str "bye"]
    else []
|}.

Definition body_of (parts : list value) : value :=
  Object [("forEach", Function "each"); ("close", Function "close");
          ("parts", Array parts)].

End Samples.

(* ================================================================== *)
(** * Part II. Theorems                                                *)
(* ================================================================== *)

(** ** Middleware composition *)
Section ResolverFacts.
Import Resolver.
Context {E : Engine}.

Lemma resolve_Array (items : list value) :
  resolve (Array items) = reduceRight1 middlewareWrapper items.
Proof.
  induction items as [|outer rest IH]; [reflexivity|].
  destruct rest as [|next rest']; [reflexivity|].
  change (resolve (Array (outer :: next :: rest')))
    with (inner <- resolve (Array (next :: rest')) ;;
          f <- resolve outer ;; invoke f inner).
  rewrite IH. reflexivity.
Qed.

Lemma resolve_Function (name : string) :
  resolve (Function name) = Ok (Function name).
Proof. reflexivity. Qed.

Lemma middlewareWrapper_Function (inner : value) (m : string) :
  middlewareWrapper inner (Function m) = call m inner.
Proof. reflexivity. Qed.

(** A stack of middleware functions around a handler function, of any
    length: the last-listed middleware is applied to the handler first. *)
Lemma compose_functions (ms : list string) (h : string) :
  compose (map Function ms) (Function h)
  = fold_right (fun m acc => a <- acc ;; call m a) (Ok (Function h)) ms.
Proof.
  unfold compose, reduceRight. simpl.
  induction ms as [|m ms IH]; [reflexivity|].
  simpl. rewrite IH.
  destruct (fold_right _ _ ms); reflexivity.
Qed.

(** C2.  For a middleware stack [m1, m2, m3] and a handler h, what
    handleRequest composes (middleware.reduceRight(middlewareWrapper,
    resolve(h))) is m1(m2(m3(h))): m3 is called on h first, m2 on what
    that returns, m1 last, so m1 is outermost.  The nested form
    resolve([m1, m2, m3, h]) composes the same way. *)
Theorem middleware_stack_first_is_outermost (m1 m2 m3 h : string) :
  compose [Function m1; Function m2; Function m3] (Function h)
  = (a3 <- call m3 (Function h) ;; a2 <- call m2 a3 ;; call m1 a2)
  /\ resolve (Array [Function m1; Function m2; Function m3; Function h])
     = (a3 <- call m3 (Function h) ;; a2 <- call m2 a3 ;; call m1 a2).
Proof.
  split.
  - pose proof (compose_functions [m1; m2; m3] h) as Hc.
    simpl in Hc. rewrite Hc.
    destruct (call m3 (Function h)) as [a3|e]; [|reflexivity].
    simpl. destruct (call m2 a3); reflexivity.
  - rewrite resolve_Array. cbn [reduceRight1 bind].
    rewrite middlewareWrapper_Function.
    destruct (call m3 (Function h)) as [a3|e]; [|reflexivity].
    cbn [bind]. rewrite middlewareWrapper_Function.
    destruct (call m2 a3) as [a2|e]; [|reflexivity].
    cbn [bind]. apply middlewareWrapper_Function.
Qed.

(** handleRequest, given a module that exports the handler and a
    middleware list, dispatches to the composition. *)
Lemma handleRequest_app_composes (moduleId export : string)
    (exports : value) (middleware : list value) (app : string) :
  require moduleId = Ok exports ->
  get exports "middleware" = Array middleware ->
  compose middleware (get exports export) = Ok (Function app) ->
  truthy RINGO_ENV = false ->
  handleRequest_app moduleId (ByName export) = Ok (Function app).
Proof.
  intros Hreq Hmw Hc Henv. unfold handleRequest_app.
  rewrite Hreq. simpl. rewrite Hmw. unfold or_else. simpl.
  rewrite Hc. simpl. rewrite Henv. reflexivity.
Qed.

End ResolverFacts.

(** With the symbolic engine the composition can be read off. *)
Example compose_symbolic :
  @Resolver.compose Resolver.symbolic
    [Function "m1"; Function "m2"; Function "m3"] (Function "h")
  = Ok (Function "m1(m2(m3(h)))").
Proof. reflexivity. Qed.

Example resolve_nested_symbolic :
  @Resolver.resolve Resolver.symbolic
    (Array [Function "m1"; Array [Function "m2"; Function "m3"]; Function "h"])
  = Ok (Function "m1(m2(m3)(h))").
Proof. reflexivity. Qed.

(** ** Request initialisation *)
Section RequestFacts.
Import Request.

Lemma initRequest_initialized (r : request) :
  hasOwnProperty_input r = true -> initRequest r = r.
Proof. unfold initRequest. intros ->. reflexivity. Qed.

Lemma initRequest_defines_input (r : request) :
  hasOwnProperty_input (initRequest r) = true.
Proof.
  unfold initRequest.
  destruct (hasOwnProperty_input r) eqn:Hown; [exact Hown | reflexivity].
Qed.

Lemma initRequest_idempotent (r : request) :
  initRequest (initRequest r) = initRequest r.
Proof. apply initRequest_initialized, initRequest_defines_input. Qed.

Lemma initRequest_keeps (r : request) :
  the_stream (initRequest r) = the_stream r
  /\ streams (initRequest r) + to_build (initRequest r)
     <= streams r + to_build r.
Proof.
  unfold initRequest, hasOwnProperty_input, the_stream, to_build.
  destruct r as [[|v|[s|]] errors n]; simpl; lia.
Qed.

Lemma get_input_keeps (c : bool) (r : request) :
  the_stream (snd (get_input c r)) = the_stream r
  /\ streams (snd (get_input c r)) + to_build (snd (get_input c r))
     <= streams r + to_build r
  /\ (forall s, fst (get_input c r) = Ok (Stream s) -> s = the_stream r).
Proof.
  unfold get_input, the_stream, to_build.
  destruct r as [[|v|[s|]] errors n]; simpl.
  - repeat split; try lia. intros s' [=].
  - repeat split; try lia. intros s' [=].
  - repeat split; try lia. intros s' [=]. congruence.
  - destruct c; simpl; repeat split; try lia; intros s' [=]; congruence.
Qed.

Lemma run_keeps (ops : list op) :
  forall r : request,
    streams (snd (run ops r)) + to_build (snd (run ops r))
    <= streams r + to_build r
    /\ (forall s, In (Ok (Stream s)) (fst (run ops r)) -> s = the_stream r).
Proof.
  induction ops as [|o ops IH]; intros r; simpl.
  - split; [lia | intros s []].
  - destruct o as [|c].
    + destruct (initRequest_keeps r) as [Hs Hb].
      destruct (IH (initRequest r)) as [IHb IHs].
      split; [lia|]. intros s Hin. rewrite <- Hs. auto.
    + destruct (get_input_keeps c r) as (Hs & Hb & Hg).
      destruct (get_input c r) as [got r1] eqn:Hget. simpl in *.
      destruct (IH r1) as [IHb IHs].
      destruct (run ops r1) as [gots r2] eqn:Hrun. simpl in *.
      split; [lia|].
      intros s [Hhead | Hin].
      * apply Hg. exact Hhead.
      * rewrite <- Hs. auto.
Qed.

(** Once the getter holds a stream, nothing changes the request any more
    and every read gives that stream. *)
Lemma memo_settled (s : nat) (ops : list op) :
  forall r : request,
    input r = Getter (Some s) ->
    snd (run ops r) = r
    /\ Forall (fun got => got = Ok (Stream s)) (fst (run ops r)).
Proof.
  induction ops as [|o ops IH]; intros r Hr; simpl.
  - split; [reflexivity | constructor].
  - destruct o as [|c].
    + rewrite initRequest_initialized
        by (unfold hasOwnProperty_input; rewrite Hr; reflexivity).
      apply IH, Hr.
    + unfold get_input. rewrite Hr.
      destruct (IH r Hr) as [Hsame Hall].
      destruct (run ops r) as [gots r2]. simpl in *.
      split; [exact Hsame | constructor; [reflexivity | exact Hall]].
Qed.

Lemma get_input_stores (c : bool) (r : request) (s : nat) :
  fst (get_input c r) = Ok (Stream s) ->
  input (snd (get_input c r)) = Getter (Some s).
Proof.
  unfold get_input.
  destruct r as [[|v|[s'|]] errors n]; simpl; try discriminate.
  - intros [= ->]. reflexivity.
  - destruct c; simpl; [intros [= <-]; reflexivity | discriminate].
Qed.

(** C9.  Whatever is done with a request descriptor (initRequest calls
    and reads of request.input, in any order and number, reads that find
    the servlet input stream unavailable included), at most one Stream is
    ever constructed and every read that returns a stream returns that same
    one.  The stream is materialised lazily and memoized: initRequest
    constructs nothing, the first read of an initialised descriptor
    constructs the stream and stores it, and once a read has returned the
    stream every later read, after whatever calls, returns that stored
    stream and constructs nothing.  initRequest on a descriptor that
    already has its [input] property changes nothing, so that initialising
    twice is initialising once. *)
Theorem input_stream_built_once_init_idempotent
    (r : request) (ops : list op) :
  streams (snd (run ops r)) <= S (streams r)
  /\ (forall s1 s2,
        In (Ok (Stream s1)) (fst (run ops r)) ->
        In (Ok (Stream s2)) (fst (run ops r)) -> s1 = s2)
  /\ initRequest (initRequest r) = initRequest r
  /\ run [Init; Init] r = run [Init] r
  /\ (hasOwnProperty_input r = true -> initRequest r = r)
  /\ (forall c s,
        fst (get_input c r) = Ok (Stream s) ->
        Forall (fun got => got = Ok (Stream s))
          (fst (run ops (snd (get_input c r))))
        /\ snd (run ops (snd (get_input c r))) = snd (get_input c r))
  /\ (hasOwnProperty_input r = false ->
      streams (initRequest r) = streams r
      /\ get_input true (initRequest r)
         = (Ok (Stream (streams r)),
            {| input := Getter (Some (streams r));
               jsgi_errors := Some "system.stderr";
               streams := S (streams r) |})).
Proof.
  destruct (run_keeps ops r) as [Hb Hs].
  split; [|split; [|split; [|split; [|split; [|split]]]]].
  - assert (to_build r <= 1)
      by (unfold to_build; destruct (input r) as [|v|[s|]]; lia).
    lia.
  - intros s1 s2 H1 H2. rewrite (Hs s1 H1), (Hs s2 H2). reflexivity.
  - apply initRequest_idempotent.
  - simpl. rewrite initRequest_idempotent. reflexivity.
  - apply initRequest_initialized.
  - intros c s Hread.
    destruct (memo_settled s ops _ (get_input_stores c r s Hread)) as [Hsame Hall].
    split; [exact Hall | exact Hsame].
  - intros Hown. unfold initRequest. rewrite Hown. split; reflexivity.
Qed.

End RequestFacts.

(** A fresh descriptor, initialised, read three times (the first read
    finding the servlet stream unavailable), and initialised again in
    between: one stream, number 0, handed out twice. *)
Example request_lifetime :
  Request.run
    [Request.Init; Request.Read false; Request.Read true; Request.Init;
     Request.Read true]
    Request.fresh
  = ([Throw (Raised "getInputStream"); Ok (Request.Stream 0);
      Ok (Request.Stream 0)],
     {| Request.input := Request.Getter (Some 0);
        Request.jsgi_errors := Some "system.stderr";
        Request.streams := 1 |}).
Proof. reflexivity. Qed.

Lemma input_stream_built_once_init_idempotent_witness :
  Request.streams
    (snd (Request.run
            [Request.Init; Request.Read true; Request.Init; Request.Read true]
            Request.fresh)) <= 1
  /\ Request.initRequest (Request.initRequest Request.fresh)
     = Request.initRequest Request.fresh
  /\ fst (Request.get_input true (Request.initRequest Request.fresh))
     = Ok (Request.Stream 0)
  /\ Forall (fun got => got = Ok (Request.Stream 0))
       (fst (Request.run
               [Request.Read false; Request.Init; Request.Read true]
               (snd (Request.get_input true
                       (Request.initRequest Request.fresh))))).
Proof.
  destruct (input_stream_built_once_init_idempotent
              (Request.initRequest Request.fresh)
              [Request.Read false; Request.Init; Request.Read true])
    as (_ & _ & _ & _ & Hkeep & Hmemo & _).
  destruct (input_stream_built_once_init_idempotent Request.fresh
              [Request.Init; Request.Read true; Request.Init; Request.Read true])
    as (Hbuilt & _ & _ & _ & _ & _ & Hfirst).
  split; [exact Hbuilt|].
  split; [exact (Hkeep eq_refl)|].
  split; [rewrite (proj2 (Hfirst eq_refl)); reflexivity|].
  exact (proj1 (Hmemo true 0 eq_refl)).
Defined.

(** ** The synchronous commit *)
Section CommitFacts.
Import Commit.
Local Open Scope tx_scope.
Context {H : Host}.

Lemma extend_nil (x : exchange) : extend x [] = x.
Proof. destruct x. unfold extend. simpl. rewrite app_nil_r. reflexivity. Qed.

Lemma extend_extend (x : exchange) (cs ds : list call) :
  extend (extend x cs) ds = extend x (cs ++ ds).
Proof. unfold extend. simpl. rewrite app_assoc. reflexivity. Qed.

Lemma record_extend (c : call) (x : exchange) : record c x = extend x [c].
Proof. reflexivity. Qed.

Lemma for_each_emit {A} (f : A -> call) (l : list A) (x : exchange) :
  for_each (fun a => emit (f a)) l x = (Ok tt, extend x (map f l)).
Proof.
  revert x. induction l as [|a l IH]; intros x; simpl.
  - unfold ret. rewrite extend_nil. reflexivity.
  - unfold then_ at 1. unfold emit at 1. rewrite IH, record_extend, extend_extend.
    reflexivity.
Qed.

Lemma writeHeader_lines (entry : string * value) (x : exchange) :
  writeHeader entry x = (Ok tt, extend x (header_lines entry)).
Proof.
  destruct entry as [key values]. unfold writeHeader, header_lines. simpl.
  destruct values; try (unfold ret; rewrite extend_nil; reflexivity).
  - apply (for_each_emit (fun v => AddHeader key (Str v))).
  - apply (for_each_emit (AddHeader key)).
Qed.

Lemma writeHeaders_lines (headers : value) (x : exchange) :
  writeHeaders headers x
  = (Ok tt, extend x (flat_map header_lines (for_in headers))).
Proof.
  unfold writeHeaders. generalize (for_in headers) as entries.
  intros entries. revert x.
  induction entries as [|e entries IH]; intros x; simpl.
  - unfold ret. rewrite extend_nil. reflexivity.
  - unfold then_ at 1. rewrite writeHeader_lines, IH, extend_extend.
    reflexivity.
Qed.

Lemma split_not_nil (s : string) : split s <> [].
Proof.
  induction s as [|c s IH]; simpl; [discriminate|].
  destruct (Ascii.eqb c newline); [discriminate|].
  destruct (split s); [contradiction | discriminate].
Qed.

Lemma join_split (s : string) : join (split s) = s.
Proof.
  induction s as [|c s IH]; [reflexivity|]. simpl.
  pose proof (split_not_nil s) as Hne.
  destruct (Ascii.eqb c newline) eqn:Hc.
  - apply Ascii.eqb_eq in Hc. subst c.
    destruct (split s) as [|p ps]; [contradiction|].
    change (join (EmptyString :: p :: ps))
      with (String newline (join (p :: ps))).
    rewrite IH. reflexivity.
  - destruct (split s) as [|p ps]; [contradiction|].
    destruct ps as [|q qs]; simpl in *; rewrite <- IH; reflexivity.
Qed.

Lemma split_pieces (s : string) :
  Forall (fun piece => line_feeds piece = 0) (split s).
Proof.
  induction s as [|c s IH]; simpl.
  - constructor; [reflexivity | constructor].
  - destruct (Ascii.eqb c newline) eqn:Hc.
    + constructor; [reflexivity | exact IH].
    + destruct (split s) as [|p ps]; simpl.
      * constructor; [simpl; rewrite Hc; reflexivity | constructor].
      * inversion IH as [|? ? Hp Hps]; subst.
        constructor; [simpl; rewrite Hc, Hp; reflexivity | exact Hps].
Qed.

Lemma split_length (s : string) : List.length (split s) = S (line_feeds s).
Proof.
  induction s as [|c s IH]; [reflexivity|]. simpl.
  destruct (Ascii.eqb c newline).
  - simpl. rewrite IH. reflexivity.
  - pose proof (split_not_nil s).
    destruct (split s) as [|p ps]; [contradiction|]. simpl in *. lia.
Qed.

(** commitResponse on a descriptor that fails the truthiness test. *)
Lemma commitResponse_falsy (result : value) (x : exchange) :
  falsy (get result "status") || falsy (get result "headers")
    || falsy (get result "body") = true ->
  commitResponse result x
  = (if isAsyncStarted x then Ok tt else Throw (NoValidResponse result), x).
Proof.
  intros Hf. unfold commitResponse. rewrite Hf.
  destruct (isAsyncStarted x); reflexivity.
Qed.

Lemma falsy_Undefined (v : value) : v = Undefined -> falsy v = true.
Proof. intros ->. reflexivity. Qed.

Lemma writeBody_no_forEach (body charset : value) (x : exchange) :
  has_forEach body = false ->
  writeBody body charset x = (Throw (NoForEach body), x).
Proof.
  unfold has_forEach, writeBody. intros Hno.
  destruct (truthy body); [|reflexivity].
  destruct (member body "forEach"); try reflexivity. discriminate.
Qed.

End CommitFacts.

Section CommitClaims.
Import Commit.
Local Open Scope tx_scope.
Context {H : Host}.

(** C3, as amended.  For every response descriptor that lacks status,
    headers or body, commitResponse leaves the servlet exchange as it
    found it (no setStatus, no addHeader, no write); it throws the
    'No valid JSGI response' error carrying the descriptor when the
    exchange has not been switched to asynchronous mode, and returns
    without an error when it has. *)
Theorem commit_rejects_missing_field (result : value) (x : exchange) :
  get result "status" = Undefined \/ get result "headers" = Undefined
    \/ get result "body" = Undefined ->
  commitResponse result x
  = (if isAsyncStarted x then Ok tt else Throw (NoValidResponse result), x).
Proof.
  intros Hmissing. apply commitResponse_falsy.
  destruct Hmissing as [Hm | [Hm | Hm]]; rewrite (falsy_Undefined _ Hm);
    rewrite ?orb_true_r; reflexivity.
Qed.

(** C10, as amended.  The test is one of truthiness: a descriptor whose
    status, headers or body is undefined, null, false, 0, NaN or the empty
    string is never written; commitResponse throws 'No valid JSGI
    response' for it when the exchange is not in asynchronous mode, and
    returns without an error when it is. *)
Theorem commit_tests_truthiness (result : value) (x : exchange) :
  (falsy (get result "status") || falsy (get result "headers")
     || falsy (get result "body") = true ->
   commitResponse result x
   = (if isAsyncStarted x then Ok tt else Throw (NoValidResponse result), x))
  /\ (forall v, falsy v = true <->
        v = Undefined \/ v = Null \/ v = Bool false \/ v = Num (Finite 0)
        \/ v = Num NaN \/ v = Str "").
Proof.
  split; [apply commitResponse_falsy|].
  intros v. split.
  - destruct v as [| |[|]|[z| |n]|s| | | |]; simpl; try discriminate; auto 7.
    + unfold falsy. simpl. intros Hz.
      apply negb_true_iff, negb_false_iff, Z.eqb_eq in Hz. subst. auto 7.
    + unfold falsy. simpl. intros Hs.
      apply negb_true_iff, negb_false_iff, String.eqb_eq in Hs. subst. auto 7.
  - intros [-> | [-> | [-> | [-> | [-> | ->]]]]]; reflexivity.
Qed.

(** C7.  When the headers of the descriptor contain X-JSGI-Skip-Response,
    commitResponse leaves the servlet exchange exactly as it found it, and
    for a descriptor with status, headers and body it returns normally. *)
Theorem skip_response_header_suppresses_commit (result : value) (x : exchange) :
  Headers_contains (get result "headers") sentinel = Ok true ->
  snd (commitResponse result x) = x
  /\ (falsy (get result "status") || falsy (get result "headers")
        || falsy (get result "body") = false ->
      commitResponse result x = (Ok tt, x)).
Proof.
  intros Hskip. unfold commitResponse.
  destruct (isAsyncStarted x); [split; reflexivity|].
  destruct (falsy (get result "status") || falsy (get result "headers")
              || falsy (get result "body")).
  - split; [reflexivity | discriminate].
  - destruct (isCommitted x); [split; reflexivity|].
    unfold then_, lift. rewrite Hskip. split; reflexivity.
Qed.

Lemma header_lines_no_output (entries : list (string * value)) :
  forallb (fun c => negb (is_output c)) (flat_map header_lines entries) = true.
Proof.
  induction entries as [|[key v] entries IH]; [reflexivity|].
  simpl. rewrite forallb_app, IH, andb_true_r.
  unfold header_lines. simpl.
  destruct v; try reflexivity.
  - induction (split s) as [|p ps IHp]; [reflexivity | exact IHp].
  - induction items as [|i items IHi]; [reflexivity | exact IHi].
Qed.

(** C8, as amended.  For a descriptor with truthy status, headers and
    body whose body has no forEach function, on an exchange that is not
    asynchronous and not committed, without the skip header, and with a
    Content-Type lookup that does not itself throw, commitResponse throws
    "Response body doesn't implement forEach" carrying the body; by then
    the status and the header lines have been handed to the servlet
    response, and neither the output stream has been asked for nor a byte
    written. *)
Theorem commit_body_without_forEach
    (result : value) (x : exchange) (contentType charset : value) :
  let status := get result "status" in
  let headers := get result "headers" in
  let body := get result "body" in
  isAsyncStarted x = false ->
  isCommitted x = false ->
  truthy status = true -> truthy headers = true -> truthy body = true ->
  Headers_contains headers sentinel = Ok false ->
  Headers_get headers "Content-Type" = Ok contentType ->
  getMimeParameter contentType "charset" = Ok charset ->
  is_function (member body "forEach") = false ->
  let sent := SetStatus status :: flat_map header_lines (for_in headers) in
  commitResponse result x = (Throw (NoForEach body), extend x sent)
  /\ forallb (fun c => negb (is_output c)) sent = true.
Proof.
  intros status headers body Hasync Hcommitted Hs Hh Hb Hskip Hget Hmime Hno sent.
  split.
  - unfold commitResponse. rewrite Hasync, Hcommitted.
    fold status headers body. unfold falsy. rewrite Hs, Hh, Hb. simpl.
    unfold then_ at 1. unfold lift at 1. rewrite Hskip.
    unfold writeResponse.
    unfold then_ at 1. unfold emit at 1. rewrite record_extend.
    unfold then_ at 1. rewrite writeHeaders_lines, extend_extend.
    unfold then_ at 1. unfold lift at 1. rewrite Hget.
    unfold then_ at 1. unfold lift at 1. rewrite Hmime.
    rewrite writeBody_no_forEach; [reflexivity|].
    unfold has_forEach. rewrite Hno. apply andb_false_r.
  - unfold sent. simpl. apply header_lines_no_output.
Qed.

(** C4, as amended.  A header whose value is a string contributes one
    addHeader call per piece between line feeds, under the same name and in
    order (the pieces joined by line feeds are the value, none holds a line
    feed, and there is one more piece than line feeds); a header whose
    value is an array contributes one call per element, whatever the
    elements are; any other value contributes nothing; and writeHeaders
    never throws: it makes these calls, entry after entry, and returns. *)
Theorem header_values_split_listed_or_skipped :
  (forall (name s : string) (x : exchange),
      writeHeader (name, Str s) x
      = (Ok tt, extend x (map (fun piece => AddHeader name (Str piece)) (split s)))
      /\ join (split s) = s
      /\ Forall (fun piece => line_feeds piece = 0) (split s)
      /\ List.length (split s) = S (line_feeds s))
  /\ (forall (name : string) (items : list value) (x : exchange),
        writeHeader (name, Array items) x
        = (Ok tt, extend x (map (AddHeader name) items)))
  /\ (forall (name : string) (v : value) (x : exchange),
        match v with Str _ | Array _ => False | _ => True end ->
        writeHeader (name, v) x = (Ok tt, x))
  /\ (forall (headers : value) (x : exchange),
        writeHeaders headers x
        = (Ok tt, extend x (flat_map header_lines (for_in headers)))).
Proof.
  repeat split.
  - apply (writeHeader_lines (name, Str s)).
  - apply join_split.
  - apply split_pieces.
  - apply split_length.
  - intros name items x. apply (writeHeader_lines (name, Array items)).
  - intros name v x Hother. rewrite writeHeader_lines.
    unfold header_lines. simpl.
    destruct v; try contradiction; rewrite extend_nil; reflexivity.
  - apply writeHeaders_lines.
Qed.

End CommitClaims.

(** *** The commit on concrete descriptors (host [Commit.plain]) *)

Lemma commit_rejects_missing_field_witness :
  get Commit.no_body "body" = Undefined
  /\ @Commit.commitResponse Commit.plain Commit.no_body Commit.idle
     = (Throw (NoValidResponse Commit.no_body), Commit.idle).
Proof.
  split; [reflexivity|].
  apply (@commit_rejects_missing_field Commit.plain Commit.no_body Commit.idle).
  right; right; reflexivity.
Defined.

(** C3 as stated fails: on an exchange in asynchronous mode a descriptor
    without a body raises nothing. *)
Lemma commit_missing_field_async_returns :
  get Commit.no_body "body" = Undefined
  /\ @Commit.commitResponse Commit.plain Commit.no_body Commit.started = (Ok tt, Commit.started)
  /\ fst (@Commit.commitResponse Commit.plain Commit.no_body Commit.started)
     <> Throw (NoValidResponse Commit.no_body).
Proof. repeat split. discriminate. Qed.

Lemma commit_tests_truthiness_witness :
  get Commit.zero_status "status" = Num (Finite 0)
  /\ @Commit.commitResponse Commit.plain Commit.zero_status Commit.idle
     = (Throw (NoValidResponse Commit.zero_status), Commit.idle).
Proof.
  split; [reflexivity|].
  apply (proj1 (@commit_tests_truthiness Commit.plain Commit.zero_status Commit.idle)).
  reflexivity.
Defined.

(** C10 as stated fails: on an exchange in asynchronous mode a descriptor
    with status 0 is not rejected. *)
Lemma commit_falsy_field_async_returns :
  falsy (get Commit.zero_status "status") = true
  /\ @Commit.commitResponse Commit.plain Commit.zero_status Commit.started = (Ok tt, Commit.started)
  /\ fst (@Commit.commitResponse Commit.plain Commit.zero_status Commit.started)
     <> Throw (NoValidResponse Commit.zero_status).
Proof. repeat split. discriminate. Qed.

Example commit_empty_string_body :
  @Commit.commitResponse Commit.plain
    (Object [Commit.ok_status; ("headers", Object []); ("body", Str "")]) Commit.idle
  = (Throw (NoValidResponse
              (Object [Commit.ok_status; ("headers", Object []); ("body", Str "")])),
     Commit.idle).
Proof. reflexivity. Qed.

Lemma skip_response_header_suppresses_commit_witness :
  @Headers_contains Commit.plain (get Commit.skipped "headers") Commit.sentinel = Ok true
  /\ @Commit.commitResponse Commit.plain Commit.skipped Commit.idle = (Ok tt, Commit.idle).
Proof.
  split; [reflexivity|].
  apply (@skip_response_header_suppresses_commit Commit.plain Commit.skipped Commit.idle);
    reflexivity.
Defined.

(** With header names looked up as written, the skip header counts
    whatever its value is. *)
Lemma skip_response_any_value
    (v status body : value) (rest : list (string * value)) (x : Commit.exchange) :
  truthy status = true -> truthy body = true ->
  @Commit.commitResponse Commit.plain
    (Object [("status", status);
             ("headers", Object ((Commit.sentinel, v) :: rest));
             ("body", body)]) x
  = (Ok tt, x).
Proof.
  intros Hs Hb. unfold Commit.commitResponse.
  destruct (Commit.isAsyncStarted x); [reflexivity|].
  simpl get. unfold falsy. rewrite Hs, Hb. simpl.
  destruct (Commit.isCommitted x); reflexivity.
Qed.

Lemma commit_body_without_forEach_witness :
  @Commit.has_forEach Commit.plain (get Commit.number_body "body") = false
  /\ @Commit.commitResponse Commit.plain Commit.number_body Commit.idle
     = (Throw (NoForEach (Num (Finite 5))),
        Commit.extend Commit.idle
          [Commit.SetStatus (Num (Finite 200));
           Commit.AddHeader "Content-Type" (Str "text/plain")]).
Proof.
  split; [reflexivity|].
  apply (@commit_body_without_forEach Commit.plain Commit.number_body Commit.idle
           (Str "text/plain") Undefined); reflexivity.
Defined.

(** C8 as stated fails: a body without forEach that is falsy, here the
    number 0, is turned away by the test on the three fields, with the
    'No valid JSGI response' error, and writeBody is not reached. *)
Lemma commit_falsy_body_is_invalid_response :
  @Commit.has_forEach Commit.plain (get Commit.zero_body "body") = false
  /\ @Commit.commitResponse Commit.plain Commit.zero_body Commit.idle
     = (Throw (NoValidResponse Commit.zero_body), Commit.idle)
  /\ fst (@Commit.commitResponse Commit.plain Commit.zero_body Commit.idle)
     <> Throw (NoForEach (get Commit.zero_body "body")).
Proof. repeat split. discriminate. Qed.

(** C4 as stated fails: a value that is a list holding something other
    than strings is not rejected; its element becomes a header line. *)
Lemma header_list_of_numbers_accepted :
  Commit.writeHeaders (Object [("X-Count", Array [Num (Finite 5)])]) Commit.idle
  = (Ok tt, Commit.extend Commit.idle [Commit.AddHeader "X-Count" (Num (Finite 5))]).
Proof. reflexivity. Qed.

Lemma header_values_split_listed_or_skipped_witness :
  Commit.writeHeader ("Set-Cookie", Str "a=1
b=2") Commit.idle
  = (Ok tt,
     Commit.extend Commit.idle
       [Commit.AddHeader "Set-Cookie" (Str "a=1");
        Commit.AddHeader "Set-Cookie" (Str "b=2")])
  /\ Commit.writeHeader ("get", Function "get") Commit.idle = (Ok tt, Commit.idle).
Proof.
  destruct header_values_split_listed_or_skipped as (Hstr & _ & Hskip & _).
  split.
  - exact (proj1 (Hstr "Set-Cookie" "a=1
b=2" Commit.idle)).
  - exact (Hskip "get" (Function "get") Commit.idle I).
Defined.

Example for_in_array :
  Commit.for_in (Array [Str "x"; Str "y"]) = [("0", Str "x"); ("1", Str "y")].
Proof. reflexivity. Qed.

(** A whole commit: the cookie value gives two header lines, the list one,
    the function-valued property none; then the body parts. *)
Example commit_hello :
  @Commit.commitResponse Commit.plain Commit.hello Commit.idle
  = (Ok tt,
     Commit.extend Commit.idle
       [Commit.SetStatus (Num (Finite 200));
        Commit.AddHeader "Set-Cookie" (Str "a=1");
        Commit.AddHeader "Set-Cookie" (Str "b=2");
        Commit.AddHeader "X-Count" (Num (Finite 5));
        Commit.GetOutputStream;
        Commit.Write ["h"%byte; "i"%byte];
        Commit.Write ["!"%byte]]).
Proof. reflexivity. Qed.

Example split_examples :
  split "a
b" = ["a"; "b"]
  /\ split "" = [""]
  /\ split "a
" = ["a"; ""]
  /\ split "plain" = ["plain"].
Proof. repeat split. Qed.

(** ** The asynchronous response, one call at a time *)
Section AsyncFacts.
Import Async.

Lemma ready_run_le (a : nat -> bool) (n : nat) :
  forall from, ready_run a from n <= n.
Proof.
  induction n as [|n IH]; intros from; simpl; [lia|].
  destruct (a from); [specialize (IH (S from)); lia | lia].
Qed.

Lemma ready_run_true (a : nat -> bool) (n : nat) :
  forall from i, i < ready_run a from n -> a (from + i) = true.
Proof.
  induction n as [|n IH]; intros from i; simpl; [lia|].
  destruct (a from) eqn:Ha; [|lia].
  destruct i as [|i]; intros Hi.
  - rewrite Nat.add_0_r. exact Ha.
  - replace (from + S i) with (S from + i) by lia. apply IH. lia.
Qed.

Lemma ready_run_stop (a : nat -> bool) (n : nat) :
  forall from, ready_run a from n < n -> a (from + ready_run a from n) = false.
Proof.
  induction n as [|n IH]; intros from; simpl; [lia|].
  destruct (a from) eqn:Ha; intros Hlt.
  - replace (from + S (ready_run a (S from) n))
      with (S from + ready_run a (S from) n) by lia.
    apply IH. lia.
  - rewrite Nat.add_0_r. exact Ha.
Qed.

(** The loop in closed form: it writes the first [k] chunks, where [k]
    counts the yes answers before the first no, and asks once more only
    if chunks are left. *)
Lemma drain_closed_form (q : list chunk) :
  forall ch : channel,
    let k := ready_run (answers ch) (polls ch) (List.length q) in
    drain q ch
    = (skipn k q,
       {| answers := answers ch;
          polls := polls ch + k + (if k <? List.length q then 1 else 0);
          sent := sent ch ++ map OutWrite (firstn k q) |}).
Proof.
  induction q as [|data rest IH]; intros [a p s]; simpl.
  - rewrite app_nil_r. do 2 f_equal. lia.
  - destruct (a p) eqn:Hready.
    + rewrite IH. simpl.
      set (k := ready_run a (S p) (List.length rest)).
      f_equal. f_equal.
      * change (S k <? S (List.length rest)) with (k <? List.length rest).
        destruct (k <? List.length rest); lia.
      * rewrite <- app_assoc. reflexivity.
    + simpl. rewrite app_nil_r. do 2 f_equal. lia.
Qed.

Lemma onWritePossible_drains (l : WriteListenerImpl) (ch : channel) :
  drains l ch (onWritePossible l ch).
Proof.
  exists (ready_run (answers ch) (polls ch) (List.length (queue l))).
  split; [apply ready_run_le|].
  split; [intros i; apply ready_run_true|].
  split; [apply ready_run_stop|].
  unfold onWritePossible. rewrite drain_closed_form. cbv zeta.
  destruct (autoFlush l); simpl.
  - destruct (answers ch _); simpl.
    + unfold out. simpl. rewrite <- app_assoc. reflexivity.
    + rewrite app_nil_r. reflexivity.
  - rewrite app_nil_r. reflexivity.
Qed.

(** C5.  onWritePossible, the one drain routine, pops and writes the
    chunks at the head of the queue one by one, each after the channel
    answered that it is ready; it stops at the first answer that it is
    not, with the remaining chunks still queued in their order; with
    autoFlush it then asks once more and flushes once if the answer is
    yes.  Both ways in lead to it: a write on a handle that has its
    listener adds the chunk and runs it, and the container's readiness
    callback runs it. *)
Theorem drain_routine (l : WriteListenerImpl) (ch : channel) :
  drains l ch (onWritePossible l ch)
  /\ (forall (h : handle) (data : chunk),
        writeListener h = Some l ->
        let l' := {| queue := queue l ++ [data]; autoFlush := autoFlush l |} in
        enqueue data h ch
        = ({| autoFlushArg := autoFlushArg h;
              writeListener := Some (fst (onWritePossible l' ch)) |},
           snd (onWritePossible l' ch)))
  /\ (forall h : handle,
        writeListener h = Some l ->
        callback h ch
        = ({| autoFlushArg := autoFlushArg h;
              writeListener := Some (fst (onWritePossible l ch)) |},
           snd (onWritePossible l ch))).
Proof.
  split; [apply onWritePossible_drains|].
  split.
  - intros h data Hl l'. unfold enqueue. rewrite Hl. fold l'.
    destruct (onWritePossible l' ch); reflexivity.
  - intros h Hl. unfold callback. rewrite Hl.
    destruct (onWritePossible l ch); reflexivity.
Qed.

(** C6, as amended.  AsyncResponse on a request whose environment holds
    the servlet request and the servlet response returns a handle and starts
    asynchronous mode; without a timeout argument (or with null, NaN or an
    infinity) it registers no timeout at all, leaving the servlet
    container's own; a finite timeout is registered as given.  On a falsy
    request, or one whose [env] is falsy, it throws 'Invalid request
    argument' before touching the transport; on an environment without a
    servlet request it fails with a TypeError before touching the transport,
    and on one without a servlet response with a TypeError after the
    asynchronous context has been set up. *)
Theorem AsyncResponse_timeout (request autoFlush : value) :
  let env := get request "env" in
  let context timeout :=
    [StartAsync]
      ++ match registers timeout with Some ms => [SetTimeout ms] | None => [] end
      ++ [AddListener] in
  (truthy request && truthy env = true ->
   has_method (get env "servletRequest") "startAsync" = true ->
   has_method (get env "servletResponse") "getOutputStream" = true ->
     (forall timeout,
         fst (AsyncResponse request timeout autoFlush)
         = Ok {| autoFlushArg := autoFlush; writeListener := None |})
     /\ snd (AsyncResponse request Omitted autoFlush)
        = [StartAsync; AddListener; GetOutputStream]
     /\ (forall ms,
           snd (AsyncResponse request (Millis (Finite ms)) autoFlush)
           = [StartAsync; SetTimeout (Finite ms); AddListener; GetOutputStream])
     /\ (forall timeout ms,
           In (SetTimeout ms) (snd (AsyncResponse request timeout autoFlush)) ->
           timeout = Millis ms /\ isFinite ms = true))
  /\ (truthy request && truthy env = true ->
      has_method (get env "servletRequest") "startAsync" = false ->
      forall timeout,
        AsyncResponse request timeout autoFlush = (Throw TypeError, []))
  /\ (truthy request && truthy env = true ->
      has_method (get env "servletRequest") "startAsync" = true ->
      has_method (get env "servletResponse") "getOutputStream" = false ->
      forall timeout,
        AsyncResponse request timeout autoFlush
        = (Throw TypeError, context timeout))
  /\ (truthy request && truthy env = false ->
      forall timeout,
        AsyncResponse request timeout autoFlush
        = (Throw (InvalidRequest request), [])).
Proof.
  cbv zeta. unfold AsyncResponse, falsy.
  destruct (truthy request); destruct (truthy (get request "env")); simpl;
    (split; [|split; [|split]]); try discriminate;
    try (intros _ timeout; reflexivity).
  - intros _ Hrequest Hresponse. rewrite Hrequest, Hresponse. simpl.
    split; [reflexivity|]. split; [reflexivity|]. split; [reflexivity|].
    intros timeout ms Hin.
    destruct timeout as [| |[z| |n]]; simpl in Hin;
      repeat (destruct Hin as [Hin | Hin]; try discriminate; try contradiction).
    injection Hin as <-. split; reflexivity.
  - intros _ Hrequest timeout. rewrite Hrequest. reflexivity.
  - intros _ Hrequest Hresponse timeout. rewrite Hrequest, Hresponse.
    reflexivity.
Qed.

End AsyncFacts.

(** A drain that the channel cuts short: two chunks written, the third
    left queued, no flush since the channel is still not ready. *)
Example onWritePossible_partial :
  Async.onWritePossible
    {| Async.queue := [Threads.c1; Threads.c2; Threads.c3];
       Async.autoFlush := true |}
    (Async.quiet (fun n => n <? 2))
  = ({| Async.queue := [Threads.c3]; Async.autoFlush := true |},
     {| Async.answers := fun n => n <? 2;
        Async.polls := 4;
        Async.sent := [Async.OutWrite Threads.c1; Async.OutWrite Threads.c2] |}).
Proof. reflexivity. Qed.

Lemma drain_routine_witness :
  let l := {| Async.queue := [Threads.c1; Threads.c2]; Async.autoFlush := true |} in
  let h := {| Async.autoFlushArg := Bool true; Async.writeListener := Some l |} in
  Async.enqueue Threads.c3 h (Async.quiet (fun n => n <? 2))
  = ({| Async.autoFlushArg := Bool true;
        Async.writeListener :=
          Some {| Async.queue := [Threads.c3]; Async.autoFlush := true |} |},
     {| Async.answers := fun n => n <? 2;
        Async.polls := 4;
        Async.sent := [Async.OutWrite Threads.c1; Async.OutWrite Threads.c2] |}).
Proof.
  intros l h.
  destruct (drain_routine l (Async.quiet (fun n => n <? 2))) as (_ & Henqueue & _).
  rewrite (Henqueue h Threads.c3 eq_refl). reflexivity.
Defined.

Lemma AsyncResponse_timeout_witness :
  snd (Async.AsyncResponse Async.servlet_request
         (Async.Millis (Finite 5000)) (Bool true))
  = [Async.StartAsync; Async.SetTimeout (Finite 5000); Async.AddListener;
     Async.GetOutputStream].
Proof.
  destruct (proj1 (AsyncResponse_timeout Async.servlet_request (Bool true))
              eq_refl eq_refl eq_refl) as (_ & _ & Hgiven & _).
  exact (Hgiven 5000%Z).
Defined.

(** C6 as stated fails: without a timeout argument no timeout is
    registered, and in particular not 30000 ms. *)
Lemma AsyncResponse_default_registers_no_timeout :
  Async.AsyncResponse Async.servlet_request Async.Omitted (Bool false)
  = (Ok {| Async.autoFlushArg := Bool false; Async.writeListener := None |},
     [Async.StartAsync; Async.AddListener; Async.GetOutputStream])
  /\ ~ In (Async.SetTimeout (Finite 30000))
         (snd (Async.AsyncResponse Async.servlet_request Async.Omitted
                 (Bool false))).
Proof.
  split; [reflexivity|].
  simpl. intros [Hin | [Hin | [Hin | []]]]; discriminate.
Qed.

(** An environment that does not hold the servlet request: nothing is
    called on the transport. *)
Example AsyncResponse_without_servlet :
  Async.AsyncResponse (Object [("env", Object [])]) Async.Omitted (Bool false)
  = (Throw TypeError, [])
  /\ Async.AsyncResponse (Object [("env", Num (Finite 1))])
       (Async.Millis (Finite 5000)) (Bool false)
     = (Throw TypeError, []).
Proof. split; reflexivity. Qed.

Example AsyncResponse_without_env :
  Async.AsyncResponse (Object []) Async.Omitted Undefined
  = (Throw (InvalidRequest (Object [])), []).
Proof. reflexivity. Qed.

(** *** Calls that do not overlap keep the order *)
Section SerialOrder.
Import Async.

Lemma written_app (cs ds : list out_call) :
  written (cs ++ ds) = written cs ++ written ds.
Proof.
  induction cs as [|[data| |] cs IH]; simpl; rewrite ?IH; reflexivity.
Qed.

Lemma written_OutWrite (q : list chunk) : written (map OutWrite q) = q.
Proof. induction q as [|d q IH]; simpl; rewrite ?IH; reflexivity. Qed.

Lemma drain_conserves (q : list chunk) (ch : channel) :
  written (sent (snd (drain q ch))) ++ fst (drain q ch)
  = written (sent ch) ++ q.
Proof.
  rewrite drain_closed_form. cbv zeta. simpl.
  rewrite written_app, written_OutWrite, <- app_assoc, firstn_skipn.
  reflexivity.
Qed.

Lemma onWritePossible_conserves (l : WriteListenerImpl) (ch : channel) :
  written (sent (snd (onWritePossible l ch)))
    ++ queue (fst (onWritePossible l ch))
  = written (sent ch) ++ queue l.
Proof.
  unfold onWritePossible.
  pose proof (drain_conserves (queue l) ch) as Hd.
  destruct (drain (queue l) ch) as [q ch1]. simpl in Hd.
  destruct (autoFlush l); simpl; [|exact Hd].
  destruct (answers ch1 (polls ch1)); simpl; [|exact Hd].
  rewrite written_app. simpl. rewrite app_nil_r. exact Hd.
Qed.

Lemma step_conserves (o : op) (s : handle * channel) :
  written (sent (snd (step o s))) ++ pending (fst (step o s))
  = written (sent (snd s)) ++ pending (fst s) ++ enqueued [o].
Proof.
  destruct s as [h ch]. destruct o as [data| |]; simpl.
  - unfold enqueue, pending.
    destruct (writeListener h) as [l|] eqn:Hl; simpl.
    + pose proof (onWritePossible_conserves
                    {| queue := queue l ++ [data]; autoFlush := autoFlush l |} ch) as Hc.
      destruct (onWritePossible _ ch) as [l1 ch1]. simpl in *. exact Hc.
    + rewrite written_app. simpl. rewrite app_nil_r. reflexivity.
  - unfold callback, pending.
    destruct (writeListener h) as [l|] eqn:Hl; simpl.
    + pose proof (onWritePossible_conserves l ch) as Hc.
      destruct (onWritePossible l ch) as [l1 ch1]. simpl in *.
      rewrite app_nil_r. exact Hc.
    + rewrite Hl. reflexivity.
  - rewrite app_nil_r. unfold flush. simpl.
    destruct (answers ch (polls ch)); simpl; [|reflexivity].
    rewrite written_app. simpl. rewrite app_nil_r. reflexivity.
Qed.

Lemma enqueued_app (ops ops' : list op) :
  enqueued (ops ++ ops') = enqueued ops ++ enqueued ops'.
Proof.
  induction ops as [|[data| |] ops IH]; simpl; rewrite ?IH; reflexivity.
Qed.

Lemma run_conserves (ops : list op) (s : handle * channel) :
  written (sent (snd (run ops s))) ++ pending (fst (run ops s))
  = written (sent (snd s)) ++ pending (fst s) ++ enqueued ops.
Proof.
  revert s. induction ops as [|o ops IH]; intros s.
  - simpl. rewrite app_nil_r. reflexivity.
  - change (run (o :: ops) s) with (run ops (step o s)).
    rewrite IH, app_assoc, step_conserves.
    change (o :: ops) with ([o] ++ ops).
    rewrite enqueued_app, <- !app_assoc. reflexivity.
Qed.

(** X9.  Under calls that come one after the other (writes, readiness
    callbacks and flushes in any order, the channel answering as it
    likes), what has been written followed by what is still queued is
    always the chunks of the write calls in call order. *)
Theorem serial_fifo (ops : list op) (s : handle * channel) :
  written (sent (snd (run ops s))) ++ pending (fst (run ops s))
  = written (sent (snd s)) ++ pending (fst s) ++ enqueued ops.
Proof. apply run_conserves. Qed.

Lemma ready_run_all (a : nat -> bool) (n : nat) :
  forall from,
    (forall i, i < n -> a (from + i) = true) -> ready_run a from n = n.
Proof.
  induction n as [|n IH]; intros from Hall; [reflexivity|]. simpl.
  rewrite <- (Nat.add_0_r from) at 1. rewrite (Hall 0) by lia.
  f_equal. apply IH. intros i Hi.
  replace (S from + i) with (from + S i) by lia. apply Hall. lia.
Qed.

(** X10.  After any calls that came one after the other on a new handle, a
    readiness callback that finds the channel ready for as long as chunks
    are queued leaves the queue empty: every chunk is then on the channel,
    once, in call order. *)
Theorem serial_writes_arrive_in_order
    (ops : list op) (autoFlush : value) (a : nat -> bool) :
  let s := run ops ({| autoFlushArg := autoFlush; writeListener := None |}, quiet a) in
  (forall i, i < List.length (pending (fst s)) ->
             answers (snd s) (polls (snd s) + i) = true) ->
  pending (fst (callback (fst s) (snd s))) = []
  /\ written (sent (snd (callback (fst s) (snd s)))) = enqueued ops.
Proof.
  intros s Hready.
  assert (Hempty : pending (fst (callback (fst s) (snd s))) = []).
  { unfold callback, pending in *.
    destruct (writeListener (fst s)) as [l|] eqn:Hl; simpl;
      [|rewrite Hl; reflexivity].
    unfold onWritePossible. rewrite drain_closed_form. cbv zeta.
    rewrite (ready_run_all _ _ _ Hready).
    destruct (Async.autoFlush l); simpl; apply skipn_all. }
  split; [exact Hempty|].
  pose proof (run_conserves (ops ++ [Ready])
                ({| autoFlushArg := autoFlush; writeListener := None |}, quiet a))
    as Hfifo.
  unfold run in Hfifo. rewrite fold_left_app in Hfifo. simpl in Hfifo.
  fold (run ops ({| autoFlushArg := autoFlush; writeListener := None |}, quiet a))
    in Hfifo.
  fold s in Hfifo. rewrite Hempty, enqueued_app in Hfifo. simpl in Hfifo.
  rewrite !app_nil_r in Hfifo. exact Hfifo.
Qed.

End SerialOrder.

(** Writes while the channel is not ready only queue; the readiness
    callback then drains the queue in order. *)
Lemma serial_writes_arrive_in_order_witness :
  let ops := [Async.Enqueue Threads.c1; Async.Enqueue Threads.c2;
              Async.Flush; Async.Enqueue Threads.c3] in
  let s := Async.run ops
             ({| Async.autoFlushArg := Bool true; Async.writeListener := None |},
              Async.quiet (fun n => 5 <=? n)) in
  (Async.written (Async.sent (snd s)) = []
   /\ Async.pending (fst s) = [Threads.c1; Threads.c2; Threads.c3])
  /\ Async.pending (fst (Async.callback (fst s) (snd s))) = []
  /\ Async.written (Async.sent (snd (Async.callback (fst s) (snd s))))
     = [Threads.c1; Threads.c2; Threads.c3].
Proof.
  split; [split; reflexivity|].
  apply (serial_writes_arrive_in_order
           [Async.Enqueue Threads.c1; Async.Enqueue Threads.c2;
            Async.Flush; Async.Enqueue Threads.c3]
           (Bool true) (fun n => 5 <=? n)).
  simpl. intros i Hi.
  destruct i as [|[|[|i]]]; [reflexivity | reflexivity | reflexivity | lia].
Defined.

(** ** The asynchronous response under overlapping calls *)

(** C1.  Three write calls on one handle, the second and the third from
    two threads at once, the channel ready throughout: both threads enter
    onWritePossible, the second polls the first chunk and the third polls
    the second chunk, and the third writes before the second does.  Every
    call has returned and the queue is empty, the chunks were enqueued in the
    order c1, c2, c3, and they are on the channel in the order c2, c1, c3:
    nothing between poll() and write() keeps two drains apart. *)
Theorem overlapping_drains_reorder_chunks :
  let final :=
    Threads.run Threads.overlapping
      (Threads.writers false [Threads.c1; Threads.c2; Threads.c3]) in
  Threads.finished final = true
  /\ Threads.added (snd final) = [Threads.c1; Threads.c2; Threads.c3]
  /\ Async.written (Threads.sent (snd final))
     = [Threads.c2; Threads.c1; Threads.c3]
  /\ Async.written (Threads.sent (snd final)) <> Threads.added (snd final).
Proof.
  vm_compute. repeat split. discriminate.
Qed.

(** The same three calls one after the other arrive in order. *)
Example serial_schedule_in_order :
  let final :=
    Threads.run Threads.serial
      (Threads.writers false [Threads.c1; Threads.c2; Threads.c3]) in
  Threads.finished final = true
  /\ Async.written (Threads.sent (snd final))
     = [Threads.c1; Threads.c2; Threads.c3].
Proof. vm_compute. split; reflexivity. Qed.

(** Two first calls at once: both find [writeListener] null, each makes a
    listener, and the one made first is overwritten in the variable before
    it is registered.  Both calls have returned; the chunk c1 sits in the
    queue of a listener that nothing refers to any more. *)
Lemma racing_first_writes_strand_a_chunk :
  let final :=
    Threads.run Threads.racing_first
      (Threads.writers false [Threads.c1; Threads.c2]) in
  forallb Threads.is_done (fst final) = true
  /\ Threads.writeListener (snd final) = Some 1
  /\ Threads.registered (snd final) = [1; 1]
  /\ Threads.queue_of 0 (snd final) = [Threads.c1]
  /\ Threads.queue_of 1 (snd final) = [Threads.c2].
Proof. vm_compute. repeat split. Qed.

(* ================================================================== *)
(** * Part III. More of the connector                                  *)
(* ================================================================== *)

(** ** resolve and handleRequest: lists, names, and what gets dispatched *)
Section ResolverMore.
Import Resolver.
Context {E : Engine}.

Lemma reduceRight1_cons (f : value -> value -> result value)
    (x : value) (l : list value) :
  l <> [] -> reduceRight1 f (x :: l) = (a <- reduceRight1 f l ;; f a x).
Proof. destruct l; [contradiction | reflexivity]. Qed.

Lemma reduceRight1_last (f : value -> value -> result value)
    (l : list value) (last : value) :
  reduceRight1 f (l ++ [last]) = reduceRight f l last.
Proof.
  induction l as [|x l IH]; [reflexivity|].
  change ((x :: l) ++ [last]) with (x :: (l ++ [last])).
  rewrite reduceRight1_cons by (destruct l; discriminate).
  rewrite IH. reflexivity.
Qed.

Lemma bind_bind {A B C} (c : result A) (k : A -> result B) (k' : B -> result C) :
  (b <- (a <- c ;; k a) ;; k' b) = (a <- c ;; b <- k a ;; k' b).
Proof. destruct c; reflexivity. Qed.

Lemma reduceRight_from (f : value -> value -> result value) (l : list value) :
  forall start : result value,
    fold_right (fun x acc => a <- acc ;; f a x) start l
    = (init <- start ;; reduceRight f l init).
Proof.
  unfold reduceRight.
  induction l as [|x l IH]; intros start; simpl.
  - destruct start; reflexivity.
  - rewrite IH, bind_bind. reflexivity.
Qed.

(** X1.  resolve on a list wraps the last element, exactly as it stands,
    by the elements before it, from right to left; the last element is not
    resolved itself, so a module name or a list in last place is handed to
    the middleware before it as a string or an array.  A list of one
    element resolves to that element and the empty list is a TypeError. *)
Theorem resolve_list_wraps_unresolved_last (l : list value) (last : value) :
  resolve (Array (l ++ [last])) = reduceRight middlewareWrapper l last
  /\ resolve (Array [last]) = Ok last
  /\ resolve (Array []) = Throw TypeError.
Proof.
  split; [|split; reflexivity].
  rewrite resolve_Array. apply reduceRight1_last.
Qed.

(** X2.  Stacks concatenate: composing the middleware list l1 ++ l2 around
    an application is composing l2 around it and then l1 around the result;
    an exception in the inner composition is the exception of the whole. *)
Theorem compose_concatenated_stacks (l1 l2 : list value) (app : value) :
  compose (l1 ++ l2) app
  = (inner <- compose l2 app ;; reduceRight middlewareWrapper l1 inner).
Proof.
  unfold compose. rewrite bind_bind.
  destruct (resolve app) as [init|e]; [|reflexivity]. simpl.
  unfold reduceRight at 1. rewrite fold_right_app.
  apply reduceRight_from.
Qed.

(** X3.  Whatever the module registry, the middleware and the environment
    hook return, what handleRequest goes on to call is a function: any other
    outcome of the resolution is an exception. *)
Theorem handleRequest_app_is_function
    (moduleId : string) (functionObj : functionRef) :
  match handleRequest_app moduleId functionObj with
  | Ok app => is_function app = true
  | Throw _ => True
  end.
Proof.
  unfold handleRequest_app.
  destruct (match functionObj with
            | ByFunction name => Ok (Function name)
            | ByName export => _
            end) as [app|e]; [|exact I].
  simpl.
  destruct (if truthy app && truthy RINGO_ENV && is_function (env_of app)
            then invoke (env_of app) RINGO_ENV else Ok app) as [app'|e];
    [|exact I].
  simpl. destruct (is_function app') eqn:Hf; [exact Hf | exact I].
Qed.

(** X4.  A module that exports a middleware list (as handleRequest reads
    it) cannot be named as a middleware: resolve hands back the list
    itself, and wrapping with it is a TypeError. *)
Theorem middleware_by_name_of_list_module
    (id : string) (module inner : value) (l : list value) :
  require id = Ok module ->
  get module "middleware" = Array l ->
  resolve (Str id) = Ok (Array l)
  /\ middlewareWrapper inner (Str id) = Throw TypeError.
Proof.
  intros Hreq Hmw. unfold middlewareWrapper. simpl.
  rewrite Hreq. simpl. rewrite Hmw. split; reflexivity.
Qed.

End ResolverMore.

Lemma middleware_by_name_of_list_module_witness :
  @Resolver.resolve Samples.one_module (Str "app")
  = Ok (Array [Function "m1"; Function "m2"])
  /\ @Resolver.middlewareWrapper Samples.one_module (Function "h") (Str "app")
     = Throw TypeError.
Proof.
  apply (@middleware_by_name_of_list_module Samples.one_module "app"
           (Object [("handleRequest", Function "h");
                    ("middleware", Array [Function "m1"; Function "m2"])])
           (Function "h") [Function "m1"; Function "m2"]); reflexivity.
Defined.

Example handleRequest_app_by_name :
  @Resolver.handleRequest_app Samples.one_module "app" (Resolver.ByName "handleRequest")
  = Ok (Function "m1(m2(h))").
Proof. reflexivity. Qed.

(** The export is looked at only after the middleware has wrapped it: a
    name the module does not export reaches the middleware as undefined. *)
Example handleRequest_app_missing_export :
  @Resolver.handleRequest_app Samples.one_module "app" (Resolver.ByName "nothing")
  = Ok (Function "m1(m2(?))").
Proof. reflexivity. Qed.

(** ** writeBody, the whole commit, and start *)
Section CommitMore.
Import Commit Body.
Local Open Scope tx_scope.
Context {H : Host}.

Lemma for_each_writer (charset : value) (parts : list value) :
  forall x : exchange,
    for_each (writer charset) parts x
    = (outcome (snd (written_parts charset parts)),
       extend x (map Write (fst (written_parts charset parts)))).
Proof.
  induction parts as [|part rest IH]; intros x; simpl.
  - unfold ret. rewrite extend_nil. reflexivity.
  - unfold then_ at 1. unfold writer at 1. unfold then_ at 1, lift at 1.
    fold (bytes_of charset part).
    destruct (bytes_of charset part) as [b|e]; simpl.
    + unfold emit. rewrite IH, record_extend, extend_extend.
      destruct (written_parts charset rest) as [bs err]. reflexivity.
    + rewrite extend_nil. reflexivity.
Qed.

Lemma written_parts_app (charset : value) (ps qs : list value) :
  snd (written_parts charset ps) = None ->
  written_parts charset (ps ++ qs)
  = (fst (written_parts charset ps) ++ fst (written_parts charset qs),
     snd (written_parts charset qs)).
Proof.
  induction ps as [|p ps IH]; simpl; intros Hall.
  - destruct (written_parts charset qs); reflexivity.
  - destruct (bytes_of charset p) as [b|e]; [|discriminate].
    destruct (written_parts charset ps) as [bs err]. simpl in *.
    rewrite (IH Hall). reflexivity.
Qed.

(** writeBody on a body that has forEach, in one equation. *)
Lemma writeBody_forEach (body charset : value) (forEach : string) (x : exchange) :
  truthy body = true ->
  member body "forEach" = Function forEach ->
  writeBody body charset x
  = match written_parts charset (iterate forEach body) with
    | (bs, Some e) => (Throw e, extend x (GetOutputStream :: map Write bs))
    | (bs, None) =>
        (outcome (snd (written_parts charset (closing body))),
         extend x (GetOutputStream
                     :: map Write (bs ++ fst (written_parts charset (closing body)))))
    end.
Proof.
  intros Hbody Hmember. unfold writeBody. rewrite Hbody, Hmember.
  unfold then_ at 1. unfold emit at 1. rewrite record_extend.
  unfold then_ at 1. rewrite for_each_writer, extend_extend.
  destruct (written_parts charset (iterate forEach body)) as [bs [e|]]; simpl;
    [reflexivity|].
  unfold closing.
  destruct (member body "close"); simpl;
    try (unfold ret; rewrite app_nil_r; reflexivity).
  rewrite for_each_writer, extend_extend. simpl. rewrite map_app. reflexivity.
Qed.

(** X5.  When every part can be converted, writeBody asks for the output
    stream once and then writes the parts of forEach in their order,
    followed by the parts the close function hands over, each part as one
    write: a Binary unchanged, anything else through toByteString(charset). *)
Theorem writeBody_writes_parts_in_order
    (body charset : value) (forEach : string) (x : exchange) :
  truthy body = true ->
  member body "forEach" = Function forEach ->
  snd (written_parts charset (iterate forEach body ++ closing body)) = None ->
  writeBody body charset x
  = (Ok tt,
     extend x
       (GetOutputStream
          :: map Write
               (fst (written_parts charset (iterate forEach body ++ closing body))))).
Proof.
  intros Hbody Hmember Hall.
  rewrite (writeBody_forEach body charset forEach x Hbody Hmember).
  destruct (written_parts charset (iterate forEach body)) as [bs err] eqn:Hparts.
  destruct err as [e|].
  - exfalso. clear - Hparts Hall. revert bs Hparts Hall.
    induction (iterate forEach body) as [|p ps IH]; simpl; intros bs Hparts Hall;
      [discriminate|].
    destruct (bytes_of charset p) as [b|e']; [|discriminate].
    destruct (written_parts charset ps) as [bs' err'] eqn:Hps.
    destruct (written_parts charset (ps ++ closing body)) as [cs err''] eqn:Hpc.
    simpl in *. injection Hparts as _ ->. apply (IH bs' eq_refl). exact Hall.
  - rewrite written_parts_app in Hall |- * by (rewrite Hparts; reflexivity).
    rewrite Hparts. simpl in *. rewrite Hall. reflexivity.
Qed.

(** X6.  A part that cannot be converted ends the body there: the parts
    before it have been written and stay written, its exception is the one
    writeBody throws, no later part is written and the close function of the
    body is not called. *)
Theorem writeBody_stops_at_bad_part
    (body charset : value) (forEach : string) (x : exchange) (e : error) :
  truthy body = true ->
  member body "forEach" = Function forEach ->
  snd (written_parts charset (iterate forEach body)) = Some e ->
  writeBody body charset x
  = (Throw e,
     extend x
       (GetOutputStream
          :: map Write (fst (written_parts charset (iterate forEach body))))).
Proof.
  intros Hbody Hmember Hbad.
  rewrite (writeBody_forEach body charset forEach x Hbody Hmember).
  destruct (written_parts charset (iterate forEach body)) as [bs err].
  simpl in Hbad. subst err. reflexivity.
Qed.

(** X7.  A complete descriptor on an exchange that is neither asynchronous
    nor committed, without the skip header: commitResponse sets the status
    first, then adds every header line, then asks for the output stream and
    writes the body parts, in this order and nothing else. *)
Theorem commit_writes_status_headers_body
    (result : value) (x : exchange) (contentType charset : value)
    (forEach : string) :
  let status := get result "status" in
  let headers := get result "headers" in
  let body := get result "body" in
  isAsyncStarted x = false ->
  isCommitted x = false ->
  truthy status = true -> truthy headers = true -> truthy body = true ->
  Headers_contains headers sentinel = Ok false ->
  Headers_get headers "Content-Type" = Ok contentType ->
  getMimeParameter contentType "charset" = Ok charset ->
  member body "forEach" = Function forEach ->
  snd (written_parts charset (iterate forEach body ++ closing body)) = None ->
  commitResponse result x
  = (Ok tt,
     extend x
       (SetStatus status
          :: flat_map header_lines (for_in headers)
          ++ GetOutputStream
          :: map Write
               (fst (written_parts charset (iterate forEach body ++ closing body))))).
Proof.
  intros status headers body Hasync Hcommitted Hs Hh Hb Hskip Hget Hmime
    Hmember Hall.
  unfold commitResponse. rewrite Hasync, Hcommitted.
  fold status headers body. unfold falsy. rewrite Hs, Hh, Hb. simpl.
  unfold then_ at 1. unfold lift at 1. rewrite Hskip.
  unfold writeResponse.
  unfold then_ at 1. unfold emit at 1. rewrite record_extend.
  unfold then_ at 1. rewrite writeHeaders_lines, extend_extend.
  unfold then_ at 1. unfold lift at 1. rewrite Hget.
  unfold then_ at 1. unfold lift at 1. rewrite Hmime.
  rewrite (writeBody_writes_parts_in_order body charset forEach _ Hb Hmember Hall).
  rewrite extend_extend. reflexivity.
Qed.

(** X8.  start(status, headers) sets the status and then adds the header
    lines of [headers] with the rules of writeHeaders; with headers left
    out, or falsy, it sets the status only.  It never throws, and it keeps
    no record of having run: a second start writes everything again. *)
Theorem start_sets_status_then_headers (status headers : value) (x : exchange) :
  let lines := if truthy headers
               then flat_map header_lines (for_in headers) else [] in
  Async.start status headers x = (Ok tt, extend x (SetStatus status :: lines))
  /\ then_ (Async.start status headers) (fun _ => Async.start status headers) x
     = (Ok tt, extend x ((SetStatus status :: lines) ++ SetStatus status :: lines)).
Proof.
  assert (Hstart : forall y,
             Async.start status headers y
             = (Ok tt,
                extend y (SetStatus status
                            :: (if truthy headers
                                then flat_map header_lines (for_in headers)
                                else [])))).
  { intros y. unfold Async.start.
    unfold then_ at 1. unfold emit at 1.
    rewrite writeHeaders_lines, record_extend, extend_extend.
    unfold or_else. destruct (truthy headers); reflexivity. }
  split; [apply Hstart|].
  unfold then_. rewrite Hstart, Hstart, extend_extend. reflexivity.
Qed.

End CommitMore.

(** ** The handle and the channel's readiness *)
Section AsyncMore.
Import Async Gate.

Lemma onWritePossible_closed_form (l : WriteListenerImpl) (ch : channel) :
  let k := ready_run (answers ch) (polls ch) (List.length (queue l)) in
  let asked := polls ch + k + (if k <? List.length (queue l) then 1 else 0) in
  onWritePossible l ch
  = ({| queue := skipn k (queue l); autoFlush := autoFlush l |},
     {| answers := answers ch;
        polls := if autoFlush l then S asked else asked;
        sent := sent ch ++ map OutWrite (firstn k (queue l))
                  ++ (if autoFlush l && answers ch asked then [OutFlush] else []) |}).
Proof.
  cbv zeta. unfold onWritePossible. rewrite drain_closed_form. cbv zeta.
  destruct (autoFlush l); simpl.
  - destruct (answers ch _); simpl.
    + unfold out. simpl. rewrite <- app_assoc. reflexivity.
    + rewrite app_nil_r. reflexivity.
  - rewrite app_nil_r. reflexivity.
Qed.

Lemma step_answers (o : op) (s : handle * channel) :
  answers (snd (step o s)) = answers (snd s).
Proof.
  destruct s as [h ch]. destruct o as [data| |]; simpl.
  - unfold enqueue. destruct (writeListener h) as [l|]; [|reflexivity].
    rewrite onWritePossible_closed_form. reflexivity.
  - unfold callback. destruct (writeListener h) as [l|]; [|reflexivity].
    rewrite onWritePossible_closed_form. reflexivity.
  - unfold flush. simpl. destruct (answers ch (polls ch)); reflexivity.
Qed.

Lemma run_answers (ops : list op) :
  forall s, answers (snd (run ops s)) = answers (snd s).
Proof.
  induction ops as [|o ops IH]; intros s; [reflexivity|].
  change (run (o :: ops) s) with (run ops (step o s)).
  rewrite IH. apply step_answers.
Qed.

Lemma run_snoc (ops : list op) (o : op) (s : handle * channel) :
  run (ops ++ [o]) s = step o (run ops s).
Proof. unfold run. rewrite fold_left_app. reflexivity. Qed.

Lemma step_keeps_listener (o : op) (s : handle * channel) :
  writeListener (fst s) <> None -> writeListener (fst (step o s)) <> None.
Proof.
  destruct s as [h ch]. destruct o as [data| |]; simpl; intros Hl.
  - unfold enqueue. destruct (writeListener h) as [l|]; [|contradiction].
    destruct (onWritePossible _ ch). discriminate.
  - unfold callback. destruct (writeListener h) as [l|]; [|contradiction].
    destruct (onWritePossible l ch). discriminate.
  - exact Hl.
Qed.

Lemma enqueue_makes_listener (data : chunk) (h : handle) (ch : channel) :
  writeListener (fst (enqueue data h ch)) <> None.
Proof.
  unfold enqueue. destruct (writeListener h) as [l|].
  - destruct (onWritePossible _ ch). discriminate.
  - discriminate.
Qed.

Lemma run_keeps_listener (ops : list op) :
  forall s, writeListener (fst s) <> None ->
            writeListener (fst (run ops s)) <> None.
Proof.
  induction ops as [|o ops IH]; intros s Hl; [exact Hl|].
  change (run (o :: ops) s) with (run ops (step o s)).
  apply IH, step_keeps_listener, Hl.
Qed.

Lemma written_makes_listener (ops : list op) :
  forall s, enqueued ops <> [] -> writeListener (fst (run ops s)) <> None.
Proof.
  induction ops as [|o ops IH]; intros s Hne; [contradiction|].
  change (run (o :: ops) s) with (run ops (step o s)).
  destruct o as [data| |]; simpl in Hne.
  - apply run_keeps_listener. destruct s as [h ch]. apply enqueue_makes_listener.
  - apply IH, Hne.
  - apply IH, Hne.
Qed.

Lemma ready_run_never (n from : nat) : ready_run (fun _ => false) from n = 0.
Proof. destruct n; reflexivity. Qed.

Lemma step_never_ready (o : op) (s : handle * channel) :
  answers (snd s) = (fun _ => false) ->
  written (sent (snd (step o s))) = written (sent (snd s)).
Proof.
  destruct s as [h ch]. simpl. intros Ha.
  destruct o as [data| |]; simpl.
  - unfold enqueue. destruct (writeListener h) as [l|]; simpl.
    + rewrite onWritePossible_closed_form. cbv zeta. simpl. rewrite Ha.
      rewrite ready_run_never, andb_false_r. simpl. rewrite app_nil_r.
      reflexivity.
    + rewrite written_app. simpl. apply app_nil_r.
  - unfold callback. destruct (writeListener h) as [l|]; simpl; [|reflexivity].
    rewrite onWritePossible_closed_form. cbv zeta. simpl. rewrite Ha.
    rewrite ready_run_never, andb_false_r. simpl. rewrite app_nil_r.
    reflexivity.
  - unfold flush. simpl. rewrite Ha. reflexivity.
Qed.

(** X11.  While the channel never reports ready, no call writes anything:
    after any writes, callbacks and flushes on a new handle the channel has
    received no chunk, and the queue holds every chunk of the writes in call
    order. *)
Theorem never_ready_only_queues (ops : list op) (autoFlush : value) :
  let s := run ops (created autoFlush, quiet (fun _ => false)) in
  written (sent (snd s)) = [] /\ pending (fst s) = enqueued ops.
Proof.
  cbv zeta.
  assert (Hnone : forall ops s,
             answers (snd s) = (fun _ => false) ->
             written (sent (snd (run ops s))) = written (sent (snd s))).
  { clear. induction ops as [|o ops IH]; intros s Ha; [reflexivity|].
    change (run (o :: ops) s) with (run ops (step o s)).
    rewrite IH by (rewrite step_answers; exact Ha).
    apply step_never_ready, Ha. }
  pose proof (Hnone ops (created autoFlush, quiet (fun _ => false)) eq_refl) as Hw.
  pose proof (run_conserves ops (created autoFlush, quiet (fun _ => false))) as Hc.
  simpl in Hw. rewrite Hw in Hc. simpl in Hc.
  split; [exact Hw | exact Hc].
Qed.

Lemma ready_run_always (n from : nat) : ready_run (fun _ => true) from n = n.
Proof.
  revert from. induction n as [|n IH]; intros from; simpl;
    [reflexivity | rewrite IH; reflexivity].
Qed.

Lemma onWritePossible_always_ready (l : WriteListenerImpl) (ch : channel) :
  answers ch = (fun _ => true) ->
  queue (fst (onWritePossible l ch)) = [].
Proof.
  intros Ha. rewrite onWritePossible_closed_form. cbv zeta. simpl.
  rewrite Ha, ready_run_always. apply skipn_all.
Qed.

(** X12.  On a channel that is always ready, every write after the first,
    and every readiness callback after the first write, leaves the queue
    empty with all chunks so far on the channel in call order.  (The first
    write only queues its chunk and registers the listener.) *)
Theorem always_ready_drains_at_once
    (ops : list op) (o : op) (autoFlush : value) :
  enqueued ops <> [] ->
  is_flush o = false ->
  let s := run (ops ++ [o]) (created autoFlush, quiet (fun _ => true)) in
  pending (fst s) = []
  /\ written (sent (snd s)) = enqueued (ops ++ [o]).
Proof.
  intros Hne Ho. cbv zeta.
  set (init := (created autoFlush, quiet (fun _ => true))).
  assert (Hempty : pending (fst (run (ops ++ [o]) init)) = []).
  { rewrite run_snoc.
    pose proof (written_makes_listener ops init Hne) as Hl.
    pose proof (run_answers ops init) as Ha. simpl in Ha.
    destruct (run ops init) as [h ch]. simpl in *.
    destruct o as [data| |]; [| |discriminate]; simpl.
    - unfold enqueue, pending.
      destruct (writeListener h) as [l|]; [|contradiction].
      pose proof (onWritePossible_always_ready
                    {| queue := queue l ++ [data]; autoFlush := Async.autoFlush l |}
                    ch Ha) as Hq.
      destruct (onWritePossible _ ch). exact Hq.
    - unfold callback, pending.
      destruct (writeListener h) as [l|]; [|contradiction].
      pose proof (onWritePossible_always_ready l ch Ha) as Hq.
      destruct (onWritePossible l ch). exact Hq. }
  split; [exact Hempty|].
  pose proof (run_conserves (ops ++ [o]) init) as Hc.
  rewrite Hempty, app_nil_r in Hc. exact Hc.
Qed.

Lemma flushes_app (cs ds : list out_call) :
  flushes (cs ++ ds) = flushes cs + flushes ds.
Proof.
  induction cs as [|[data| |] cs IH]; simpl; rewrite ?IH; reflexivity.
Qed.

Lemma flushes_OutWrite (q : list chunk) : flushes (map OutWrite q) = 0.
Proof. induction q as [|d q IH]; [reflexivity | exact IH]. Qed.

Lemma step_without_autoFlush (o : op) (s : handle * channel) :
  plain_handle (fst s) -> is_flush o = false ->
  plain_handle (fst (step o s))
  /\ flushes (sent (snd (step o s))) = flushes (sent (snd s)).
Proof.
  destruct s as [h ch]. simpl. intros [Harg Hl] Ho.
  destruct o as [data| |]; [| |discriminate]; simpl.
  - unfold enqueue. destruct (writeListener h) as [l|] eqn:Hw.
    + rewrite onWritePossible_closed_form. cbv zeta. simpl.
      rewrite (Hl l eq_refl). simpl.
      split; [split; [exact Harg | intros l' [= <-]; reflexivity]|].
      rewrite app_nil_r, flushes_app, flushes_OutWrite. lia.
    + simpl. split; [split; [exact Harg | intros l' [= <-]; exact Harg]|].
      rewrite flushes_app. simpl. lia.
  - unfold callback. destruct (writeListener h) as [l|] eqn:Hw.
    + rewrite onWritePossible_closed_form. cbv zeta. simpl.
      rewrite (Hl l eq_refl). simpl.
      split; [split; [exact Harg | intros l' [= <-]; reflexivity]|].
      rewrite app_nil_r, flushes_app, flushes_OutWrite. lia.
    + simpl. split; [split; [exact Harg | rewrite Hw; discriminate] | reflexivity].
Qed.

(** X13.  autoFlush counts only when it is the boolean true.  On a handle
    created with any other value, truthy ones such as 1 or "true" included,
    writes and readiness callbacks never flush the channel, however it
    answers: the only flushes are those of explicit flush() calls. *)
Theorem autoFlush_must_be_true
    (ops : list op) (autoFlush : value) (a : nat -> bool) :
  is_true autoFlush = false ->
  existsb is_flush ops = false ->
  flushes (sent (snd (run ops (created autoFlush, quiet a)))) = 0.
Proof.
  intros Harg Hops.
  assert (Hrun : forall ops s,
             plain_handle (fst s) -> existsb is_flush ops = false ->
             flushes (sent (snd (run ops s))) = flushes (sent (snd s))).
  { clear. induction ops as [|o ops IH]; intros s Hs Hops; [reflexivity|].
    change (run (o :: ops) s) with (run ops (step o s)).
    simpl in Hops. apply orb_false_elim in Hops as [Ho Hops].
    destruct (step_without_autoFlush o s Hs Ho) as [Hs' Hf].
    rewrite (IH _ Hs' Hops). exact Hf. }
  rewrite Hrun; [reflexivity | | exact Hops].
  split; [exact Harg | discriminate].
Qed.

Lemma outputs_app (cs ds : list out_call) :
  outputs (cs ++ ds) = outputs cs + outputs ds.
Proof.
  induction cs as [|[data| |] cs IH]; simpl; rewrite ?IH; reflexivity.
Qed.

Lemma drain_gated (q : list chunk) :
  forall ch, gated ch -> gated (snd (drain q ch)).
Proof.
  induction q as [|data rest IH]; intros ch Hg; [exact Hg|]. simpl.
  destruct (answers ch (polls ch)) eqn:Hready.
  - apply IH. unfold gated in *. simpl.
    rewrite outputs_app, Hready, Hg. reflexivity.
  - unfold gated in *. simpl. rewrite Hready, Hg. lia.
Qed.

Lemma flush_gated (ch : channel) : gated ch -> gated (flush ch).
Proof.
  unfold gated, flush. simpl. intros Hg.
  destruct (answers ch (polls ch)) eqn:Hready; simpl.
  - rewrite outputs_app, Hready, Hg. reflexivity.
  - rewrite Hready, Hg. lia.
Qed.

Lemma onWritePossible_gated (l : WriteListenerImpl) (ch : channel) :
  gated ch -> gated (snd (onWritePossible l ch)).
Proof.
  intros Hg. unfold onWritePossible.
  pose proof (drain_gated (queue l) ch Hg) as Hd.
  destruct (drain (queue l) ch) as [q ch1]. simpl in Hd.
  destruct (autoFlush l); [|exact Hd].
  apply (flush_gated ch1) in Hd. unfold flush in Hd. simpl in *.
  destruct (answers ch1 (polls ch1)); exact Hd.
Qed.

Lemma step_gated (o : op) (s : handle * channel) :
  gated (snd s) -> gated (snd (step o s)).
Proof.
  destruct s as [h ch]. simpl. intros Hg.
  destruct o as [data| |]; simpl.
  - unfold enqueue. destruct (writeListener h) as [l|].
    + pose proof (onWritePossible_gated
                    {| queue := queue l ++ [data]; autoFlush := autoFlush l |} ch Hg).
      destruct (onWritePossible _ ch). assumption.
    + unfold gated in *. simpl. rewrite outputs_app, Hg. simpl. lia.
  - unfold callback. destruct (writeListener h) as [l|]; [|exact Hg].
    pose proof (onWritePossible_gated l ch Hg).
    destruct (onWritePossible l ch). assumption.
  - apply flush_gated, Hg.
Qed.

(** X14.  The handle never writes or flushes without having asked: on a
    new handle, after any writes, callbacks and flushes, the number of
    writes and flushes made on the output stream is exactly the number of
    times isReady() has answered yes, whatever the answers were. *)
Theorem one_output_per_ready_answer
    (ops : list op) (autoFlush : value) (a : nat -> bool) :
  let ch := snd (run ops (created autoFlush, quiet a)) in
  outputs (sent ch) = yeses a (polls ch).
Proof.
  cbv zeta.
  assert (Hrun : forall ops s, gated (snd s) -> gated (snd (run ops s))).
  { clear. induction ops as [|o ops IH]; intros s Hg; [exact Hg|].
    change (run (o :: ops) s) with (run ops (step o s)).
    apply IH, step_gated, Hg. }
  pose proof (Hrun ops (created autoFlush, quiet a) eq_refl) as Hg.
  unfold gated in Hg. rewrite run_answers in Hg. exact Hg.
Qed.

End AsyncMore.

(** ** Overlapping calls: where the chunks go *)
Section ThreadsMore.
Import Async Threads Chunks.

Lemma cnt_app (d : chunk) (l1 l2 : list chunk) :
  cnt d (l1 ++ l2) = cnt d l1 + cnt d l2.
Proof. apply count_occ_app. Qed.

Lemma set_nth_length {A} (t : nat) (a : A) (l : list A) :
  List.length (set_nth t a l) = List.length l.
Proof.
  revert t. induction l as [|x l IH]; intros [|t]; simpl; auto.
Qed.

Lemma In_set_nth {A} (t : nat) (a x : A) (l : list A) :
  In x (set_nth t a l) -> x = a \/ In x l.
Proof.
  revert t. induction l as [|y l IH]; intros [|t]; simpl; auto.
  - intros [<- | Hin]; auto.
  - intros [<- | Hin]; auto. destruct (IH t Hin); auto.
Qed.

(** Replacing the element at place [t] moves the count by the difference
    of what the old and the new element contribute. *)
Lemma cnt_set_nth {A} (f : A -> list chunk) (d : chunk) (l : list A) :
  forall (t : nat) (old new : A),
    nth_error l t = Some old ->
    cnt d (flat_map f (set_nth t new l)) + cnt d (f old)
    = cnt d (flat_map f l) + cnt d (f new).
Proof.
  induction l as [|x l IH]; intros [|t] old new Hnth; simpl in *;
    try discriminate.
  - injection Hnth as ->. rewrite !cnt_app. lia.
  - rewrite !cnt_app. specialize (IH t old new Hnth). lia.
Qed.

Lemma concat_as_flat_map (qs : list (list chunk)) :
  List.concat qs = flat_map (fun q => q) qs.
Proof. induction qs as [|q qs IH]; simpl; [|rewrite IH]; reflexivity. Qed.

Lemma cnt_set_queue (d : chunk) (qs : list (list chunk))
    (this : nat) (old new : list chunk) :
  nth_error qs this = Some old ->
  cnt d (List.concat (set_nth this new qs)) + cnt d old
  = cnt d (List.concat qs) + cnt d new.
Proof.
  intros Hnth. rewrite !concat_as_flat_map.
  apply (cnt_set_nth (fun q => q) d qs this old new Hnth).
Qed.

Lemma queue_of_nth_error (this : nat) (s : shared) :
  this < List.length (queues s) ->
  nth_error (queues s) this = Some (queue_of this s).
Proof. intros Hlt. unfold queue_of. apply nth_error_nth'. exact Hlt. Qed.

Lemma queue_of_cons (this : nat) (s : shared) (d : chunk) (rest : list chunk) :
  queue_of this s = d :: rest -> nth_error (queues s) this = Some (d :: rest).
Proof.
  intros Hq. rewrite <- Hq. apply queue_of_nth_error.
  destruct (Nat.lt_ge_cases this (List.length (queues s))) as [Hlt|Hge]; [exact Hlt|].
  unfold queue_of in Hq. rewrite nth_overflow in Hq by exact Hge. discriminate.
Qed.

Lemma cnt_written_snoc (d : chunk) (cs : list Async.out_call) (c : Async.out_call) :
  cnt d (Async.written (cs ++ [c]))
  = cnt d (Async.written cs) + cnt d (Async.written [c]).
Proof. rewrite written_app. apply cnt_app. Qed.

Lemma cnt_add (d data : chunk) (s : shared) (this : nat) :
  writeListener s = Some this ->
  this < List.length (queues s) ->
  cnt d (List.concat (queues (add data s)))
  = cnt d (List.concat (queues s)) + cnt d [data].
Proof.
  intros Hw Hlt. unfold add. rewrite Hw. simpl queues.
  pose proof (cnt_set_queue d (queues s) this (queue_of this s)
                (queue_of this s ++ [data]) (queue_of_nth_error this s Hlt)) as Hc.
  rewrite cnt_app in Hc. lia.
Qed.

Lemma add_keeps (data : chunk) (s : shared) :
  writeListener (add data s) = writeListener s
  /\ List.length (queues (add data s)) = List.length (queues s)
  /\ sent (add data s) = sent s.
Proof.
  unfold add. destruct (writeListener s) as [this|] eqn:Hw; simpl;
    rewrite ?set_nth_length, ?Hw; auto.
Qed.

(** One step of one thread moves chunks, it neither makes nor loses any,
    and it keeps the configuration sound. *)
(** Closes the goals about the variable [writeListener] being set. *)
Ltac listener_set :=
  simpl;
  repeat match goal with
         | |- context [match ?x with _ => _ end] => destruct x eqn:?
         end;
  simpl in *; intros; try discriminate; try congruence; auto.

Lemma fire_keeps (c : config) (choice : nat * bool) :
  sound c ->
  sound (fire c choice)
  /\ forall d, cnt d (everywhere (fire c choice)) = cnt d (everywhere c).
Proof.
  destruct c as [ths s]. destruct choice as [t ready].
  intros [Hthis Huses]. simpl in Hthis, Huses.
  unfold fire. simpl fst. simpl snd.
  destruct (nth_error ths t) as [p|] eqn:Hnth;
    [|split; [split; assumption | reflexivity]].
  assert (Hin : In p ths) by (eapply nth_error_In; eassumption).
  assert (Hswap : forall p1 d,
             cnt d (flat_map holding (set_nth t p1 ths)) + cnt d (holding p)
             = cnt d (flat_map holding ths) + cnt d (holding p1))
    by (intros p1 d; apply cnt_set_nth; exact Hnth).
  assert (Hothers : forall p1 s1,
             (writeListener s <> None -> writeListener s1 <> None) ->
             (uses_listener p1 = true -> writeListener s1 <> None) ->
             forall q, In q (set_nth t p1 ths) -> uses_listener q = true ->
                       writeListener s1 <> None).
  { intros p1 s1 Hmono Hp1 q Hq Hu.
    destruct (In_set_nth _ _ _ _ Hq) as [-> | Hold]; [auto|].
    apply Hmono. apply (Huses q Hold Hu). }
  unfold everywhere.
  destruct p as [data|data|data| |data| |this|this|this|this data|this|this|];
    simpl step; cbv iota; simpl fst; simpl snd.
  - (* Test *)
    destruct (writeListener s) as [this|] eqn:Hw.
    + split.
      * split; simpl; [rewrite Hw; exact Hthis|].
        apply Hothers; listener_set.
      * intros d. rewrite !cnt_app. specialize (Hswap (Add data) d).
        simpl in *. lia.
    + split.
      * split; simpl; [rewrite Hw; exact Hthis|].
        apply Hothers; listener_set.
      * intros d. rewrite !cnt_app. specialize (Hswap (New data) d).
        simpl in *. lia.
  - (* New *)
    split.
    + split.
      * simpl. intros this [= <-]. rewrite length_app. simpl. lia.
      * apply Hothers; listener_set.
    + intros d. simpl. rewrite concat_app, !cnt_app.
      specialize (Hswap (AddFirst data) d). simpl in *. lia.
  - (* AddFirst *)
    destruct (add_keeps data s) as (Hw & Hlen & Hsent).
    assert (Hsome : writeListener s <> None) by (apply (Huses _ Hin); reflexivity).
    destruct (writeListener s) as [this|] eqn:Hws; [|contradiction].
    split.
    + split; simpl; [rewrite Hw, Hlen; exact Hthis|].
      apply Hothers; listener_set.
    + intros d. rewrite Hsent, !cnt_app.
      rewrite (cnt_add d data s this Hws (Hthis this eq_refl)).
      specialize (Hswap Register d). simpl in *. lia.
  - (* Register *)
    split.
    + split; simpl; [exact Hthis|].
      apply Hothers; listener_set.
    + intros d. simpl. rewrite !cnt_app, cnt_written_snoc.
      specialize (Hswap Done d). simpl in *. lia.
  - (* Add *)
    destruct (add_keeps data s) as (Hw & Hlen & Hsent).
    assert (Hsome : writeListener s <> None) by (apply (Huses _ Hin); reflexivity).
    destruct (writeListener s) as [this|] eqn:Hws; [|contradiction].
    split.
    + split; simpl; [rewrite Hw, Hlen; exact Hthis|].
      apply Hothers; listener_set.
    + intros d. rewrite Hsent, !cnt_app.
      rewrite (cnt_add d data s this Hws (Hthis this eq_refl)).
      specialize (Hswap Call d). simpl in *. lia.
  - (* Call *)
    split.
    + split; simpl; [exact Hthis|].
      apply Hothers; listener_set.
    + intros d. rewrite !cnt_app.
      specialize (Hswap (match writeListener s with
                         | Some this => IsEmpty this
                         | None => Done
                         end) d).
      destruct (writeListener s); simpl in *; lia.
  - (* IsEmpty *)
    split.
    + split; simpl; [exact Hthis|].
      apply Hothers; listener_set.
    + intros d. rewrite !cnt_app.
      specialize (Hswap (match queue_of this s with
                         | [] => FlushTest this
                         | _ :: _ => IsReady this
                         end) d).
      destruct (queue_of this s); simpl in *; lia.
  - (* IsReady *)
    split.
    + split; simpl; [exact Hthis|].
      apply Hothers; listener_set.
    + intros d. rewrite !cnt_app.
      specialize (Hswap (if ready then Poll this else FlushTest this) d).
      destruct ready; simpl in *; lia.
  - (* Poll *)
    destruct (queue_of this s) as [|data rest] eqn:Hq.
    + split.
      * split; simpl; [exact Hthis|].
        apply Hothers; listener_set.
      * intros d. rewrite !cnt_app. specialize (Hswap (FlushTest this) d).
        simpl in *. lia.
    + split.
      * split; simpl; [rewrite set_nth_length; exact Hthis|].
        apply Hothers; listener_set.
      * intros d. simpl. rewrite !cnt_app.
        pose proof (cnt_set_queue d (queues s) this (data :: rest) rest
                      (queue_of_cons this s data rest Hq)) as Hc.
        specialize (Hswap (WriteOut this data) d).
        change (data :: rest) with ([data] ++ rest) in Hc.
        rewrite cnt_app in Hc. simpl in *. lia.
  - (* WriteOut *)
    split.
    + split; simpl; [exact Hthis|].
      apply Hothers; listener_set.
    + intros d. simpl. rewrite !cnt_app, cnt_written_snoc.
      specialize (Hswap (IsEmpty this) d). simpl in *. lia.
  - (* FlushTest *)
    split.
    + split; simpl; [exact Hthis|].
      apply Hothers; listener_set.
    + intros d. rewrite !cnt_app.
      specialize (Hswap (if autoFlush s
                         then if ready then FlushOut this else Done
                         else Done) d).
      destruct (autoFlush s); [destruct ready|]; simpl in *; lia.
  - (* FlushOut *)
    split.
    + split; simpl; [exact Hthis|].
      apply Hothers; listener_set.
    + intros d. simpl. rewrite !cnt_app, cnt_written_snoc.
      specialize (Hswap Done d). simpl in *. lia.
  - (* Done *)
    split.
    + split; simpl; [exact Hthis|].
      apply Hothers; listener_set.
    + intros d. rewrite !cnt_app. specialize (Hswap Done d).
      simpl in *. lia.
Qed.

Lemma run_keeps_chunks (schedule : list (nat * bool)) :
  forall c, sound c ->
            sound (run schedule c)
            /\ forall d, cnt d (everywhere (run schedule c)) = cnt d (everywhere c).
Proof.
  induction schedule as [|choice schedule IH]; intros c Hc;
    [split; [exact Hc | reflexivity]|].
  change (run (choice :: schedule) c) with (run schedule (fire c choice)).
  destruct (fire_keeps c choice Hc) as [Hs Hcnt].
  destruct (IH _ Hs) as [Hs' Hcnt'].
  split; [exact Hs'|]. intros d. rewrite Hcnt'. apply Hcnt.
Qed.

Lemma writers_sound (auto : bool) (data : list chunk) :
  sound (writers auto data) /\ everywhere (writers auto data) = data.
Proof.
  split.
  - split; simpl; [discriminate|].
    intros p Hin. apply in_map_iff in Hin as (d & <- & _). discriminate.
  - unfold everywhere. simpl.
    induction data as [|d data IH]; simpl; [|rewrite IH]; reflexivity.
Qed.

Lemma chunks_conserved (schedule : list (nat * bool)) (auto : bool)
    (data : list chunk) :
  Permutation (everywhere (run schedule (writers auto data))) data.
Proof.
  destruct (writers_sound auto data) as [Hsound Hstart].
  destruct (run_keeps_chunks schedule _ Hsound) as [_ Hcnt].
  apply (Permutation_count_occ chunk_eq_dec). intros d.
  specialize (Hcnt d). unfold cnt in Hcnt. rewrite Hcnt, Hstart. reflexivity.
Qed.

(** X15.  However the steps of any number of overlapping write calls on
    one handle are interleaved, and however the channel answers, no chunk is
    made up, duplicated or dropped along the way: at every moment the chunks
    written to the channel, those in the queues and those in the hands of
    the threads are, together, exactly the chunks of the calls. *)
Theorem overlapping_writes_conserve_chunks
    (schedule : list (nat * bool)) (auto : bool) (data : list chunk) :
  Permutation (everywhere (run schedule (writers auto data))) data.
Proof. apply chunks_conserved. Qed.

Lemma finished_nothing_left (c : config) :
  finished c = true -> everywhere c = Async.written (sent (snd c)).
Proof.
  unfold finished, everywhere. intros Hf.
  apply andb_true_iff in Hf as [Hdone Hempty].
  assert (Hq : List.concat (queues (snd c)) = []).
  { induction (queues (snd c)) as [|q qs IH]; [reflexivity|].
    simpl in Hempty. apply andb_true_iff in Hempty as [Hq Hqs].
    destruct q; [|discriminate]. simpl. apply IH, Hqs. }
  assert (Hh : flat_map holding (fst c) = []).
  { induction (fst c) as [|p ps IH]; [reflexivity|].
    simpl in Hdone. apply andb_true_iff in Hdone as [Hp Hps].
    destruct p; try discriminate. simpl. apply IH, Hps. }
  rewrite Hq, Hh, !app_nil_r. reflexivity.
Qed.

(** X16.  Whenever all the overlapping write calls have returned and every
    queue is empty, the channel has received each chunk of the calls exactly
    once; only their order is open. *)
Theorem finished_writes_are_a_permutation
    (schedule : list (nat * bool)) (auto : bool) (data : list chunk) :
  finished (run schedule (writers auto data)) = true ->
  Permutation (Async.written (sent (snd (run schedule (writers auto data)))))
    data.
Proof.
  intros Hf. rewrite <- (finished_nothing_left _ Hf). apply chunks_conserved.
Qed.

End ThreadsMore.

Lemma finished_writes_are_a_permutation_witness :
  Permutation [Threads.c2; Threads.c1; Threads.c3]
    [Threads.c1; Threads.c2; Threads.c3].
Proof.
  exact (finished_writes_are_a_permutation Threads.overlapping false
           [Threads.c1; Threads.c2; Threads.c3] eq_refl).
Defined.

(** ** handleRequest from end to end *)
Section DispatchMore.
Import Resolver Commit Dispatch.
Context {E : Engine} {H : Host} {A : Application}.

Lemma prepared_initialised (moduleId : string) (functionObj : functionRef)
    (r : jsgi) :
  descriptor (prepared moduleId functionObj r)
  = Request.initRequest (descriptor r).
Proof.
  unfold prepared, set_app.
  destruct functionObj; [reflexivity|].
  destruct (require moduleId); reflexivity.
Qed.

(** X17.  When the application cannot be resolved to a function
    (require fails, a middleware throws, or what comes out is not callable)
    handleRequest throws that error without calling anything on the servlet
    exchange; the request has been initialised all the same, so a retry with
    the same request object finds its input property in place. *)
Theorem handleRequest_unresolved
    (moduleId : string) (functionObj : functionRef) (r : jsgi) (x : exchange)
    (e : error) :
  handleRequest_app moduleId functionObj = Throw e ->
  handleRequest moduleId functionObj r x
  = (Throw e, (prepared moduleId functionObj r, x))
  /\ Request.hasOwnProperty_input
       (descriptor (prepared moduleId functionObj r)) = true
  /\ Request.initRequest (descriptor (prepared moduleId functionObj r))
     = descriptor (prepared moduleId functionObj r).
Proof.
  intros Hres. unfold handleRequest. rewrite Hres.
  rewrite prepared_initialised.
  split; [reflexivity|].
  split; [apply initRequest_defines_input | apply initRequest_idempotent].
Qed.

(** X18.  An application that returns nothing (undefined, null, or any
    other falsy value) makes handleRequest throw 'No valid JSGI response',
    also when the application has switched the exchange to asynchronous
    mode; commitResponse is not reached and the exchange stays as the
    application left it. *)
Theorem handleRequest_rejects_empty_result
    (moduleId : string) (functionObj : functionRef) (r : jsgi) (x : exchange)
    (app : string) (result : value) (r' : jsgi) (x' : exchange) :
  handleRequest_app moduleId functionObj = Ok (Function app) ->
  serve app (prepared moduleId functionObj r) x = (Ok result, (r', x')) ->
  falsy result = true ->
  handleRequest moduleId functionObj r x
  = (Throw (NoValidResponse result), (r', x')).
Proof.
  intros Hres Hserve Hfalsy. unfold handleRequest. rewrite Hres.
  fold (prepared moduleId functionObj r). rewrite Hserve, Hfalsy. reflexivity.
Qed.

(** X19.  An application that has switched the exchange to asynchronous
    mode and returns any truthy value, a handle without status, headers or
    body included, ends handleRequest normally, and nothing is written for
    it: the exchange stays as the application left it. *)
Theorem handleRequest_leaves_async_exchange
    (moduleId : string) (functionObj : functionRef) (r : jsgi) (x : exchange)
    (app : string) (result : value) (r' : jsgi) (x' : exchange) :
  handleRequest_app moduleId functionObj = Ok (Function app) ->
  serve app (prepared moduleId functionObj r) x = (Ok result, (r', x')) ->
  truthy result = true ->
  isAsyncStarted x' = true ->
  handleRequest moduleId functionObj r x = (Ok tt, (r', x')).
Proof.
  intros Hres Hserve Htruthy Hasync. unfold handleRequest. rewrite Hres.
  fold (prepared moduleId functionObj r). rewrite Hserve.
  unfold falsy. rewrite Htruthy. simpl.
  unfold commitResponse. rewrite Hasync. reflexivity.
Qed.

End DispatchMore.

Lemma handleRequest_unresolved_witness :
  @Dispatch.handleRequest Resolver.symbolic Commit.plain Dispatch.sample
    "nowhere" (Resolver.ByName "handleRequest") Dispatch.incoming Commit.idle
  = (Throw (Raised "module not found"),
     ({| Dispatch.descriptor := Request.initRequest Request.fresh;
         Dispatch.env_app := None |},
      Commit.idle)).
Proof.
  exact (proj1 (@handleRequest_unresolved Resolver.symbolic Commit.plain
                  Dispatch.sample "nowhere" (Resolver.ByName "handleRequest")
                  Dispatch.incoming Commit.idle (Raised "module not found")
                  eq_refl)).
Defined.

Lemma handleRequest_rejects_empty_result_witness :
  @Dispatch.handleRequest Resolver.symbolic Commit.plain Dispatch.sample
    "m" (Resolver.ByFunction "silent") Dispatch.incoming Commit.idle
  = (Throw (NoValidResponse Undefined),
     ({| Dispatch.descriptor := Request.initRequest Request.fresh;
         Dispatch.env_app := None |},
      Commit.started)).
Proof.
  exact (@handleRequest_rejects_empty_result Resolver.symbolic Commit.plain
           Dispatch.sample "m" (Resolver.ByFunction "silent")
           Dispatch.incoming Commit.idle "silent" Undefined _ _
           eq_refl eq_refl eq_refl).
Defined.

Lemma handleRequest_leaves_async_exchange_witness :
  @Dispatch.handleRequest Resolver.symbolic Commit.plain Dispatch.sample
    "m" (Resolver.ByFunction "async") Dispatch.incoming Commit.idle
  = (Ok tt,
     ({| Dispatch.descriptor := Request.initRequest Request.fresh;
         Dispatch.env_app := None |},
      Commit.started)).
Proof.
  exact (@handleRequest_leaves_async_exchange Resolver.symbolic Commit.plain
           Dispatch.sample "m" (Resolver.ByFunction "async")
           Dispatch.incoming Commit.idle "async"
           (Object [("write", Function "write")]) _ _
           eq_refl eq_refl eq_refl eq_refl).
Defined.

(** A synchronous application by name: resolved through the middleware of
    its module, called, and its descriptor committed. *)
Example handleRequest_by_name :
  @Dispatch.handleRequest Samples.one_module Commit.plain Dispatch.sample
    "app" (Resolver.ByName "handleRequest") Dispatch.incoming Commit.idle
  = (Ok tt,
     ({| Dispatch.descriptor := Request.initRequest Request.fresh;
         Dispatch.env_app := Some "app" |},
      Commit.extend Commit.idle
        [Commit.SetStatus (Num (Finite 200));
         Commit.AddHeader "Set-Cookie" (Str "a=1");
         Commit.AddHeader "Set-Cookie" (Str "b=2");
         Commit.AddHeader "X-Count" (Num (Finite 5));
         Commit.GetOutputStream;
         Commit.Write ["h"%byte; "i"%byte];
         Commit.Write ["!"%byte]])).
Proof. reflexivity. Qed.

(** ** The extra properties on concrete inputs *)

Lemma writeBody_writes_parts_in_order_witness :
  @Commit.writeBody Samples.feeding
    (Samples.body_of [Str "hi"; Binary ["!"%byte]]) Undefined Commit.idle
  = (Ok tt,
     Commit.extend Commit.idle
       [Commit.GetOutputStream;
        Commit.Write ["h"%byte; "i"%byte];
        Commit.Write ["!"%byte];
        Commit.Write ["b"%byte; "y"%byte; "e"%byte]]).
Proof.
  exact (@writeBody_writes_parts_in_order Samples.feeding
           (Samples.body_of [Str "hi"; Binary ["!"%byte]]) Undefined "each"
           Commit.idle eq_refl eq_refl eq_refl).
Defined.

(** The number 5 has no toByteString: "a" is written, "b" is not, and the
    part of the close function is not written either. *)
Lemma writeBody_stops_at_bad_part_witness :
  @Commit.writeBody Samples.feeding
    (Samples.body_of [Str "a"; Num (Finite 5); Str "b"]) Undefined Commit.idle
  = (Throw TypeError,
     Commit.extend Commit.idle
       [Commit.GetOutputStream; Commit.Write ["a"%byte]]).
Proof.
  exact (@writeBody_stops_at_bad_part Samples.feeding
           (Samples.body_of [Str "a"; Num (Finite 5); Str "b"]) Undefined "each"
           Commit.idle TypeError eq_refl eq_refl eq_refl).
Defined.

Lemma commit_writes_status_headers_body_witness :
  @Commit.commitResponse Commit.plain Commit.hello Commit.idle
  = (Ok tt,
     Commit.extend Commit.idle
       [Commit.SetStatus (Num (Finite 200));
        Commit.AddHeader "Set-Cookie" (Str "a=1");
        Commit.AddHeader "Set-Cookie" (Str "b=2");
        Commit.AddHeader "X-Count" (Num (Finite 5));
        Commit.GetOutputStream;
        Commit.Write ["h"%byte; "i"%byte];
        Commit.Write ["!"%byte]]).
Proof.
  exact (@commit_writes_status_headers_body Commit.plain Commit.hello Commit.idle
           Undefined Undefined "Array.prototype.forEach"
           eq_refl eq_refl eq_refl eq_refl eq_refl eq_refl eq_refl eq_refl
           eq_refl eq_refl).
Defined.

Lemma always_ready_drains_at_once_witness :
  let s := Async.run [Async.Enqueue Threads.c1; Async.Enqueue Threads.c2]
             (Gate.created (Bool false), Async.quiet (fun _ => true)) in
  Async.pending (fst s) = []
  /\ Async.written (Async.sent (snd s)) = [Threads.c1; Threads.c2].
Proof.
  apply (always_ready_drains_at_once [Async.Enqueue Threads.c1]
           (Async.Enqueue Threads.c2) (Bool false)).
  - discriminate.
  - reflexivity.
Defined.

(** The first write on an always ready channel leaves its chunk queued. *)
Example first_write_only_queues :
  let s := Async.run [Async.Enqueue Threads.c1]
             (Gate.created (Bool false), Async.quiet (fun _ => true)) in
  Async.pending (fst s) = [Threads.c1]
  /\ Async.sent (snd s) = [Async.SetWriteListener].
Proof. split; reflexivity. Qed.

(** autoFlush given as the number 1: writes and callbacks on an always
    ready channel, and no flush. *)
Lemma autoFlush_must_be_true_witness :
  Gate.flushes
    (Async.sent
       (snd (Async.run
               [Async.Enqueue Threads.c1; Async.Enqueue Threads.c2; Async.Ready]
               (Gate.created (Num (Finite 1)), Async.quiet (fun _ => true)))))
  = 0.
Proof.
  exact (autoFlush_must_be_true
           [Async.Enqueue Threads.c1; Async.Enqueue Threads.c2; Async.Ready]
           (Num (Finite 1)) (fun _ => true) eq_refl eq_refl).
Defined.

(** The same calls with autoFlush true flush. *)
Example autoFlush_true_flushes :
  Gate.flushes
    (Async.sent
       (snd (Async.run
               [Async.Enqueue Threads.c1; Async.Enqueue Threads.c2; Async.Ready]
               (Gate.created (Bool true), Async.quiet (fun _ => true)))))
  = 2.
Proof. reflexivity. Qed.

(** ** The guards of commitResponse *)
Section CommitGuards.
Import Commit.
Local Open Scope tx_scope.
Context {H : Host}.

(** X20.  commitResponse calls the servlet response in one situation
    only.  If the exchange is in asynchronous mode, or the response is
    already committed, or one of status, headers and body is falsy, or the
    skip-header lookup answers anything but no (yes, or an exception), then
    the exchange is left exactly as it was found. *)
Theorem commit_touches_only_open_exchange (result : value) (x : exchange) :
  isAsyncStarted x = true
  \/ isCommitted x = true
  \/ falsy (get result "status") || falsy (get result "headers")
       || falsy (get result "body") = true
  \/ Headers_contains (get result "headers") sentinel <> Ok false ->
  snd (commitResponse result x) = x.
Proof.
  intros Hguard. unfold commitResponse.
  destruct (isAsyncStarted x); [reflexivity|].
  destruct (falsy (get result "status") || falsy (get result "headers")
              || falsy (get result "body")); [reflexivity|].
  destruct (isCommitted x); [reflexivity|].
  destruct Hguard as [Hg | [Hg | [Hg | Hg]]]; try discriminate.
  unfold then_, lift.
  destruct (Headers_contains (get result "headers") sentinel) as [[|]|e];
    [reflexivity | contradiction | reflexivity].
Qed.

End CommitGuards.

(** A complete descriptor on a response that is already committed. *)
Lemma commit_touches_only_open_exchange_witness :
  let committed :=
    {| Commit.isAsyncStarted := false; Commit.isCommitted := true;
       Commit.calls := [Commit.SetStatus (Num (Finite 302))] |} in
  snd (@Commit.commitResponse Commit.plain Commit.hello committed) = committed.
Proof.
  intros committed.
  apply (@commit_touches_only_open_exchange Commit.plain Commit.hello committed).
  right; left; reflexivity.
Defined.
